(** * Menu to Images Generator: the menu-text parser and the image requester

    A shallow embedding of [app.py]: [parse_menu_items] (the line-oriented
    segmentation pass) and [generate_food_image] (prompt construction and
    the guarded call of the image service), with the properties the
    specification states about them; then [extract_text_from_image], the
    search for Tesseract and the main logic of the page, with properties
    read off the code.

    Python strings are sequences of Unicode code points; they are modelled
    as lists of code points.  The classification of a code point as a
    decimal digit or as an upper-, lower- or title-case letter comes from
    the Unicode database of the interpreter, which is not part of the
    program: it is a parameter, required to agree with ASCII on the ASCII
    range. *)

From Stdlib Require Import List NArith Arith Bool Ascii String Lia.
From Stdlib Require Import DecimalString.
Import ListNotations.

(** ** Python strings *)

Module Py.

Definition char := N.
Definition str := list char.

(** An ASCII literal as a Python string. *)
Definition lit (s : string) : str := map N_of_ascii (list_ascii_of_string s).

(** [Py_UNICODE_ISSPACE]: the characters [str.strip()] removes. *)
Definition isspace (c : char) : bool :=
  ((9 <=? c) && (c <=? 13) || (28 <=? c) && (c <=? 32) ||
   (c =? 133) || (c =? 160) || (c =? 5760) ||
   (8192 <=? c) && (c <=? 8202) || (c =? 8232) || (c =? 8233) ||
   (c =? 8239) || (c =? 8287) || (c =? 12288))%N.

(** The part of the Unicode database the program consults. *)
Record UnicodeDB : Type := {
  isdecimal : char -> bool;   (* [Py_UNICODE_ISDECIMAL], the [\d] of [re] *)
  isupper_c : char -> bool;   (* [Py_UNICODE_ISUPPER] *)
  islower_c : char -> bool;   (* [Py_UNICODE_ISLOWER] *)
  istitle_c : char -> bool;   (* [Py_UNICODE_ISTITLE] *)
  isdecimal_ascii : forall c, (c < 128)%N ->
    isdecimal c = ((48 <=? c) && (c <=? 57))%N;
  isupper_ascii : forall c, (c < 128)%N ->
    isupper_c c = ((65 <=? c) && (c <=? 90))%N;
  islower_ascii : forall c, (c < 128)%N ->
    islower_c c = ((97 <=? c) && (c <=? 122))%N;
  istitle_ascii : forall c, (c < 128)%N -> istitle_c c = false
}.

(** The database restricted to ASCII: no other code point is a digit or a
    cased letter. *)
Definition ascii_db : UnicodeDB.
Proof.
  refine {| isdecimal := fun c => ((48 <=? c) && (c <=? 57))%N;
            isupper_c := fun c => ((65 <=? c) && (c <=? 90))%N;
            islower_c := fun c => ((97 <=? c) && (c <=? 122))%N;
            istitle_c := fun _ => false |}; reflexivity.
Defined.

(** Truth value of a string: non-empty. *)
Definition truthy (s : str) : bool :=
  match s with [] => false | _ :: _ => true end.

(** [s.lstrip()], [s.rstrip()] and [s.strip()]. *)
Fixpoint lstrip (s : str) : str :=
  match s with
  | [] => []
  | c :: t => if isspace c then lstrip t else s
  end.

Definition rstrip (s : str) : str := rev (lstrip (rev s)).

Definition strip (s : str) : str := rstrip (lstrip s).

(** [s.split('\n')]: the pieces between line feeds; never empty. *)
Fixpoint split_nl (s : str) : list str :=
  match s with
  | [] => [[]]
  | c :: t =>
      if (c =? 10)%N then [] :: split_nl t
      else match split_nl t with
           | l :: ls => (c :: l) :: ls
           | [] => [[c]]
           end
  end.

(** [len(s)]. *)
Definition len (s : str) : nat := List.length s.

(** [s[:n]]. *)
Definition slice_to (n : nat) (s : str) : str := firstn n s.

Section WithDB.

Variable U : UnicodeDB.

(** [s.isupper()], as [unicode_isupper_impl] computes it. *)
Fixpoint isupper_loop (cased : bool) (s : str) : bool :=
  match s with
  | [] => cased
  | c :: t =>
      if islower_c U c || istitle_c U c then false
      else isupper_loop (cased || isupper_c U c) t
  end.

Definition isupper (s : str) : bool :=
  match s with
  | [c] => isupper_c U c
  | _ => isupper_loop false s
  end.

(** [s.istitle()], as [unicode_istitle_impl] computes it. *)
Fixpoint istitle_loop (cased previous_is_cased : bool) (s : str) : bool :=
  match s with
  | [] => cased
  | c :: t =>
      if isupper_c U c || istitle_c U c then
        if previous_is_cased then false else istitle_loop true true t
      else if islower_c U c then
        if previous_is_cased then istitle_loop true true t else false
      else istitle_loop cased false t
  end.

Definition istitle (s : str) : bool :=
  match s with
  | [c] => istitle_c U c || isupper_c U c
  | _ => istitle_loop false false s
  end.

End WithDB.

End Py.

Import Py.

(** ** The three regular expressions of [parse_menu_items] *)

Module Re.

Definition dollar : char := 36%N.        (* $ *)
Definition full_stop : char := 46%N.     (* . *)
Definition pound : char := 163%N.        (* U+00A3 *)
Definition yen : char := 165%N.          (* U+00A5 *)
Definition euro : char := 8364%N.        (* U+20AC *)

Section WithDB.

Variable U : UnicodeDB.

(** The class of the first pattern: [\d], the dollar sign and the pound,
    euro and yen signs. *)
Definition noise_class (c : char) : bool :=
  isdecimal U c || (c =? dollar)%N || (c =? pound)%N || (c =? euro)%N
  || (c =? yen)%N.

(** The longest prefix of [s] made of characters of [cls]. *)
Fixpoint span (cls : char -> bool) (s : str) : str :=
  match s with
  | [] => []
  | c :: t => if cls c then c :: span cls t else []
  end.

(** [re.match] of the first pattern, a class repeated once or more and
    anchored at the start of [s]: the matched text, a non-empty
    greedy run at the start of [s], or [None]. *)
Definition match_noise (s : str) : option str :=
  match span noise_class s with
  | [] => None
  | m => Some m
  end.

(** The class [[\d.]]. *)
Definition price_class (c : char) : bool :=
  isdecimal U c || (c =? full_stop)%N.

Definition starts_with (cls : char -> bool) (s : str) : bool :=
  match s with
  | [] => false
  | c :: _ => cls c
  end.

(** [re.search(r'\$\d+', s)] as a truth value: a dollar sign directly
    followed by a decimal digit, somewhere in [s]. *)
Fixpoint search_price (s : str) : bool :=
  match s with
  | [] => false
  | c :: t =>
      ((c =? dollar)%N && starts_with (isdecimal U) t) || search_price t
  end.

(** [re.sub(r'\$[\d.]+', '', s)]: scanning from the left, every dollar
    sign directly followed by a character of [[\d.]] is deleted together
    with the whole run of such characters after it; the scan resumes right
    after the run.  [inside] tells that the scan is within such a run. *)
Fixpoint sub_price_from (inside : bool) (s : str) : str :=
  match s with
  | [] => []
  | c :: t =>
      if inside && price_class c then sub_price_from true t
      else if (c =? dollar)%N && starts_with price_class t
           then sub_price_from true t
           else c :: sub_price_from false t
  end.

Definition sub_price (s : str) : str := sub_price_from false s.

End WithDB.

End Re.

(** ** [parse_menu_items] *)

Record menu_item : Type := {
  name : str;
  description : str
}.

(** The variables of the loop of [parse_menu_items]. *)
Record loop_state : Type := {
  menu_items : list menu_item;
  current_item : str;
  current_description : str
}.

Definition initial_state : loop_state :=
  {| menu_items := []; current_item := []; current_description := [] |}.

Section Parser.

Variable U : UnicodeDB.

(** The test of the first [continue] after the blank-line test. *)
Definition is_noise (line : str) : bool :=
  match Re.match_noise U line with Some _ => true | None => false end
  || (len line <? 3).

(** The test "looks like a dish name". *)
Definition looks_like_name (line : str) : bool :=
  (len line <? 50)
  && (Re.search_price U line || Py.isupper U line || Py.istitle U line).

(** [menu_items.append(...)] guarded by [if current_item:]. *)
Definition append_pending (st : loop_state) (descr : str) : list menu_item :=
  if truthy (current_item st)
  then menu_items st ++ [{| name := current_item st; description := descr |}]
  else menu_items st.

(** One iteration of [for line in lines]. *)
Definition loop_body (st : loop_state) (raw : str) : loop_state :=
  let line := strip raw in
  if negb (truthy line) then st
  else if is_noise line then st
  else if looks_like_name line then
    {| menu_items := append_pending st (current_description st);
       current_item := strip (Re.sub_price U line);
       current_description := [] |}
  else
    {| menu_items := menu_items st;
       current_item := current_item st;
       current_description := current_description st ++ lit " " ++ line |}.

Definition run_loop (lines : list str) (st : loop_state) : loop_state :=
  fold_left loop_body lines st.

(** The code after the loop: "Add the last item". *)
Definition finish (st : loop_state) : list menu_item :=
  append_pending st (strip (current_description st)).

Definition parse_menu_items (text : str) : list menu_item :=
  finish (run_loop (split_nl text) initial_state).

End Parser.

(** ** [generate_food_image] and the bulk-generation loop

    The image service, the HTTP download and the image decoder are outside
    the program.  They are modelled as operations on an abstract world: each
    call returns a result or raises, and may change the world.  Streamlit
    calls are recorded as events.  Those that show text do not raise;
    [st.image] has to decode the image it is given, and can raise. *)

(** An exception object [e], an instance of [Exception]; [str(e)]. *)
Record exn : Type := { exn_str : str }.

Definition IndexError : exn := {| exn_str := lit "list index out of range" |}.

(** The keyword arguments of [client.images.generate]. *)
Record request : Type := {
  req_model : str;
  req_prompt : str;
  req_size : str;
  req_quality : str;
  req_n : nat
}.

(** The prompt, built by the three statements that open the [try] block. *)
Definition build_prompt (dish_name description : str) : str :=
  let prompt := lit "A high-quality, appetizing photo of " ++ dish_name in
  let prompt :=
    if truthy description
    then prompt ++ lit ", " ++ slice_to 100 description
    else prompt in
  prompt ++ lit ", professional food photography, well-lit, restaurant quality".

(** The arguments of the call of [client.images.generate]. *)
Definition image_request (prompt : str) : request :=
  {| req_model := lit "dall-e-3";
     req_prompt := prompt;
     req_size := lit "1024x1024";
     req_quality := lit "standard";
     req_n := 1 |}.

(** The message of the [except] branch. *)
Definition error_message (dish_name : str) (e : exn) : str :=
  lit "Error generating image for " ++ dish_name ++ lit ": " ++ exn_str e.

Section Requester.

Variables world image bytes : Type.

(** The outside: [images_generate] gives the [url]s of [response.data],
    [requests_get] the [content] of the response.  [Image.open] is lazy: it
    identifies the file and reads its header; the pixels are decoded when
    they are first needed, which is [Image_load]. *)
Record services : Type := {
  images_generate : request -> world -> (exn + list str) * world;
  requests_get : str -> world -> (exn + bytes) * world;
  Image_open : bytes -> world -> (exn + image) * world;
  Image_load : image -> world -> (exn + unit) * world
}.

Inductive ui_event : Type :=
| st_warning (body : str)
| st_error (body : str)
| st_success (body : str)
| st_spinner (index total : nat) (dish : str)
| st_image (img : image) (caption : str) (width : nat)
| st_progress (done total : nat)
| time_sleep (seconds : nat).

(** What a run can observe or change: the outside world, what the page
    shows, and the requests that went to the image service. *)
Record session : Type := {
  outside : world;
  shown : list ui_event;
  sent : list request
}.

Inductive outcome (A : Type) : Type :=
| Return (a : A)
| Raise (e : exn).
Arguments Return {A} a.
Arguments Raise {A} e.

Definition M (A : Type) : Type := session -> outcome A * session.

Definition ret {A} (a : A) : M A := fun s => (Return a, s).

Definition bind {A B} (m : M A) (k : A -> M B) : M B :=
  fun s => match m s with
           | (Return a, s') => k a s'
           | (Raise e, s') => (Raise e, s')
           end.

Definition raise {A} (e : exn) : M A := fun s => (Raise e, s).

(** [try: body except Exception as e: handler e]. *)
Definition try_except {A} (body : M A) (handler : exn -> M A) : M A :=
  fun s => match body s with
           | (Return a, s') => (Return a, s')
           | (Raise e, s') => handler e s'
           end.

Local Notation "x <- m ;; k" := (bind m (fun x => k))
  (at level 61, m at next level, right associativity).
Local Notation "m ;;; k" := (bind m (fun _ => k))
  (at level 61, right associativity).

Definition show (ev : ui_event) : M unit :=
  fun s => (Return tt,
            {| outside := outside s; shown := shown s ++ [ev]; sent := sent s |}).

(** A call of an outside operation: its exception is raised here. *)
Definition call {A} (op : world -> (exn + A) * world) : M A :=
  fun s => let (r, w) := op (outside s) in
           let s' := {| outside := w; shown := shown s; sent := sent s |} in
           match r with
           | inl e => (Raise e, s')
           | inr a => (Return a, s')
           end.

Definition record_request (r : request) : M unit :=
  fun s => (Return tt,
            {| outside := outside s; shown := shown s; sent := sent s ++ [r] |}).

(** [data[0]]. *)
Definition first_of {A} (data : list A) : M A :=
  match data with
  | [] => raise IndexError
  | x :: _ => ret x
  end.

Variable svc : services.

(** Whether the global [client] is set (it is [None] until an API key is
    entered). *)
Variable client : bool.


Definition generate_food_image (dish_name description : str)
  : M (option image) :=
  if negb client then
    show (st_warning (lit "Please enter your OpenAI API key in the sidebar")) ;;;
    ret None
  else
    try_except
      (let prompt := build_prompt dish_name description in
       let req := image_request prompt in
       record_request req ;;;
       data <- call (images_generate svc req) ;;
       image_url <- first_of data ;;
       content <- call (requests_get svc image_url) ;;
       img <- call (Image_open svc content) ;;
       ret (Some img))
      (fun e => show (st_error (error_message dish_name e)) ;;; ret None).

(** [st.image(img, caption=caption, width=width)]: the image is decoded,
    which can raise, and then it is on the page. *)
Definition draw_image (img : image) (caption : str) (width : nat) : M unit :=
  call (Image_load svc img) ;;;
  show (st_image img caption width).

(** The body of the bulk loop for the item at index [i] of [total]. *)
Definition bulk_step (total i : nat) (item : menu_item) : M unit :=
  show (st_spinner (i + 1) total (name item)) ;;;
  generated_image <- generate_food_image (name item) (description item) ;;
  match generated_image with
  | Some img => draw_image img (lit "Generated: " ++ name item) 300
  | None => ret tt
  end ;;;
  show (st_progress (i + 1) total) ;;;
  show (time_sleep 1).

Fixpoint for_each (total i : nat) (items : list menu_item) : M unit :=
  match items with
  | [] => ret tt
  | item :: rest => bulk_step total i item ;;; for_each total (i + 1) rest
  end.

(** The handler of the "Generate All Images" button. *)
Definition generate_all (items : list menu_item) : M unit :=
  for_each (List.length items) 0 items ;;;
  show (st_success (lit "All images generated!")).

End Requester.

Arguments Return {A} a.
Arguments Raise {A} e.
Arguments outside {world image}.
Arguments shown {world image}.
Arguments sent {world image}.
Arguments st_error {image}.
Arguments st_warning {image}.
Arguments generate_food_image {world image bytes}.
Arguments generate_all {world image bytes}.
Arguments for_each {world image bytes}.
Arguments bulk_step {world image bytes}.
Arguments draw_image {world image bytes}.
Arguments ret {world image A}.
Arguments bind {world image A B}.
Arguments show {world image}.

(** ** Vocabulary of the specification

    The loop of [parse_menu_items] treats a line in one of four ways; the
    specification names them. *)

Inductive line_kind : Type := Blank | Noise | NameLine | DescriptionLine.

Section Vocabulary.

Variable U : UnicodeDB.

Definition classify (raw : str) : line_kind :=
  let line := strip raw in
  if negb (truthy line) then Blank
  else if is_noise U line then Noise
  else if looks_like_name U line then NameLine
  else DescriptionLine.

Definition is_name_line (raw : str) : bool :=
  match classify raw with NameLine => true | _ => false end.

(** What the loop binds [current_item] to at a name line. *)
Definition stored_name (raw : str) : str :=
  strip (Re.sub_price U (strip raw)).

(** A line the loop passes over: blank or noise. *)
Definition skipped (raw : str) : bool :=
  match classify raw with Blank | Noise => true | _ => false end.

(** The names the loop has settled on so far: those of the items already
    appended, then the pending one. *)
Definition pending (st : loop_state) : list str :=
  if truthy (current_item st) then [current_item st] else [].

Definition names_so_far (st : loop_state) : list str :=
  map name (menu_items st) ++ pending st.

End Vocabulary.

(** Two databases give a character the same classes. *)
Definition agree (U V : UnicodeDB) (c : char) : Prop :=
  isdecimal U c = isdecimal V c /\ isupper_c U c = isupper_c V c /\
  islower_c U c = islower_c V c /\ istitle_c U c = istitle_c V c.

Definition ascii_only (s : str) : bool := forallb (fun c => (c <? 128)%N) s.

Definition LF : char := 10%N.

(** The example text of property P5 of the specification. *)
Definition p5 : str :=
  lit "CAESAR SALAD" ++ [LF] ++
  lit "Crisp romaine, parmesan, croutons" ++ [LF] ++
  lit "with house dressing" ++ [LF] ++
  lit "BEEF BURGER $15" ++ [LF] ++
  lit "Served with fries".

Definition item (n d : string) : menu_item :=
  {| name := lit n; description := lit d |}.

(** Sample surroundings for the image requester: an image service that
    refuses every request. *)
Definition quota_exceeded : exn := {| exn_str := lit "quota exceeded" |}.

Definition service_down : services unit nat nat :=
  {| images_generate := fun _ w => (inl quota_exceeded, w);
     requests_get := fun _ w => (inr 0, w);
     Image_open := fun content w => (inr content, w);
     Image_load := fun _ w => (inr tt, w) |}.

Definition fresh_session : session unit nat :=
  {| outside := tt; shown := []; sent := [] |}.

(** ** Further vocabulary for the parser *)

Section Blocks.

Variable U : UnicodeDB.

Definition is_description_line (raw : str) : bool :=
  match classify U raw with DescriptionLine => true | _ => false end.

(** What the lines of a block add to [current_description]: each
    description line, stripped, after one space. *)
Definition joined (block : list str) : str :=
  List.concat (map (fun raw => lit " " ++ strip raw)
                   (filter is_description_line block)).

(** [parse_menu_items] on a text already split into lines. *)
Definition parse_lines (lines : list str) : list menu_item :=
  finish (run_loop U lines initial_state).

(** A match of the third pattern starts here or later: a dollar sign
    directly followed by a digit or a full stop. *)
Fixpoint has_price_token (s : str) : bool :=
  match s with
  | [] => false
  | c :: t =>
      ((c =? Re.dollar)%N && Re.starts_with (Re.price_class U) t)
      || has_price_token t
  end.

End Blocks.

Definition CR : char := 13%N.
Definition SPACE : char := 32%N.

(** A text with every line feed preceded by a carriage return. *)
Definition crlf (text : str) : str :=
  flat_map (fun c => if (c =? LF)%N then [CR; LF] else [c]) text.

(** Two lines that are the same once stripped. *)
Definition same_stripped (x y : str) : Prop := strip x = strip y.

(** A description as the loop accumulates it: empty, or starting with the
    space that precedes its first line. *)
Definition spaced (d : str) : Prop :=
  d = [] \/ Re.starts_with (N.eqb SPACE) d = true.

(** What the loop keeps true of its variables. *)
Definition kept (st : loop_state) : Prop :=
  Forall (fun it => spaced (description it)) (menu_items st)
  /\ spaced (current_description st)
  /\ (truthy (current_item st) = false -> menu_items st = []).

(** ** The rest of the page *)

(** The description as the page writes it under the name of an item:
    [f"*{d[:200]}...*" if len(d) > 200 else f"*{d}*"]. *)
Definition description_markup (d : str) : str :=
  if 200 <? len d
  then lit "*" ++ slice_to 200 d ++ lit "...*"
  else lit "*" ++ d ++ lit "*".

(** The places where the start-up code looks for Tesseract. *)
Definition possible_paths : list str :=
  [lit "C:\Program Files\Tesseract-OCR\tesseract.exe";
   lit "C:\Program Files (x86)\Tesseract-OCR\tesseract.exe";
   lit "C:\Users\AppData\Local\Programs\Tesseract-OCR\tesseract.exe"].

(** [for path in paths: if os.path.exists(path): tesseract_cmd = path;
    break], from the command [tesseract_cmd] in force before. *)
Fixpoint configure_tesseract (path_exists : str -> bool) (paths : list str)
    (tesseract_cmd : str) : str :=
  match paths with
  | [] => tesseract_cmd
  | path :: rest =>
      if path_exists path then path
      else configure_tesseract path_exists rest tesseract_cmd
  end.

(** ** Reading the page after a bulk run *)

Section PageLog.

Variable image : Type.

(** The values given to the progress bar. *)
Definition progress_of (ev : ui_event image) : list (nat * nat) :=
  match ev with
  | st_progress _ done total => [(done, total)]
  | _ => []
  end.

Definition progress_log (evs : list (ui_event image)) : list (nat * nat) :=
  flat_map progress_of evs.

(** The seconds slept. *)
Definition sleep_of (ev : ui_event image) : nat :=
  match ev with
  | time_sleep _ seconds => seconds
  | _ => 0
  end.

Definition slept (evs : list (ui_event image)) : nat :=
  list_sum (map sleep_of evs).

(** An image shown or an error reported. *)
Definition is_result (ev : ui_event image) : bool :=
  match ev with
  | st_error _ | st_image _ _ _ _ => true
  | _ => false
  end.

Definition results (evs : list (ui_event image)) : nat :=
  List.length (filter is_result evs).

Definition is_image (ev : ui_event image) : bool :=
  match ev with
  | st_image _ _ _ _ => true
  | _ => false
  end.

End PageLog.

Arguments is_image {image}.

Arguments progress_log {image}.
Arguments slept {image}.
Arguments results {image}.
Arguments is_result {image}.

(** ** [extract_text_from_image] and the main logic of the page

    The page calls Streamlit for more than [generate_food_image] does; a
    page event is one of those calls, or a call already in [ui_event].
    Layout containers ([with col1:], [with st.expander(...)]) do not change
    what is called, nor in which order. *)

(** [str(n)] for a non-negative integer. *)
Definition str_of_nat (n : nat) : str :=
  lit (NilZero.string_of_uint (Nat.to_uint n)).

(** The help shown when text extraction fails, a triple-quoted literal. *)
Definition tesseract_help : str :=
  [LF] ++ lit "        **To fix this:**" ++
  [LF] ++ lit "        1. **Windows**: Download from https://github.com/UB-Mannheim/tesseract/wiki" ++
  [LF] ++ lit "        2. **Mac**: Run `brew install tesseract`" ++
  [LF] ++ lit "        3. **Linux**: Run `sudo apt-get install tesseract-ocr`" ++
  [LF] ++ lit "        " ++
  [LF] ++ lit "        Or contact me to switch to Google Cloud Vision API." ++
  [LF] ++ lit "        ".

Section Page.

Variables world image bytes upload : Type.

Inductive page_event : Type :=
| pg_widget (ev : ui_event image)
| pg_columns (n : nat)
| pg_subheader (body : str)
| pg_picture (img : image) (caption : str)
| pg_spinner (text : str)
| pg_expander (label : str)
| pg_text_area (label value : str) (height : nat)
| pg_markdown (body : str)
| pg_write (body : str)
| pg_button (label : str) (key : option str) (primary : bool)
| pg_divider
| pg_progress_bar (value : nat).

Record page_state : Type := {
  pg_outside : world;
  pg_shown : list page_event;
  pg_sent : list request
}.

Definition P (A : Type) : Type := page_state -> outcome A * page_state.

Definition pg_ret {A} (a : A) : P A := fun ps => (Return a, ps).

Definition pg_bind {A B} (m : P A) (k : A -> P B) : P B :=
  fun ps => match m ps with
            | (Return a, ps') => k a ps'
            | (Raise e, ps') => (Raise e, ps')
            end.

Definition pg_try {A} (body : P A) (handler : exn -> P A) : P A :=
  fun ps => match body ps with
            | (Return a, ps') => (Return a, ps')
            | (Raise e, ps') => handler e ps'
            end.

Local Notation "x <- m ;; k" := (pg_bind m (fun x => k))
  (at level 61, m at next level, right associativity).
Local Notation "m ;;; k" := (pg_bind m (fun _ => k))
  (at level 61, right associativity).

Definition pg_show (ev : page_event) : P unit :=
  fun ps => (Return tt,
             {| pg_outside := pg_outside ps; pg_shown := pg_shown ps ++ [ev];
                pg_sent := pg_sent ps |}).

Definition pg_call {A} (op : world -> (exn + A) * world) : P A :=
  fun ps => let (r, w) := op (pg_outside ps) in
            let ps' := {| pg_outside := w; pg_shown := pg_shown ps;
                          pg_sent := pg_sent ps |} in
            match r with
            | inl e => (Raise e, ps')
            | inr a => (Return a, ps')
            end.

(** A computation of the requester, run on the page: what it shows goes on
    the page in the same order. *)
Definition pg_lift {A} (m : M world image A) : P A :=
  fun ps =>
    let (r, s) := m {| outside := pg_outside ps; shown := [];
                       sent := pg_sent ps |} in
    (r, {| pg_outside := outside s;
           pg_shown := pg_shown ps ++ map pg_widget (shown s);
           pg_sent := sent s |}).

Variable svc : services world image bytes.

(** [Image.open(uploaded_file)] and [pytesseract.image_to_string(image)]. *)
Variable open_upload : upload -> world -> (exn + image) * world.
Variable image_to_string : image -> world -> (exn + str) * world.

(** What [st.button(label, key=key)] returns in this run of the script. *)
Variable clicked : str -> option str -> bool.

Variable client : bool.

Definition extract_text_from_image (img : image) : P str :=
  pg_try
    (text <- pg_call (image_to_string img) ;;
     pg_ret text)
    (fun e =>
       pg_show (pg_widget (st_error (lit "Error extracting text: "
                                     ++ exn_str e))) ;;;
       pg_show (pg_widget (st_error (lit
         "Tesseract OCR not found. Please install Tesseract or use Google Cloud Vision API instead."))) ;;;
       pg_show (pg_markdown tesseract_help) ;;;
       pg_ret []).

(** The body of [for i, item in enumerate(menu_items)] on the page. *)
Definition item_row (i : nat) (it : menu_item) : P unit :=
  pg_show (pg_markdown (lit "### " ++ name it)) ;;;
  (if truthy (description it)
   then pg_show (pg_write (description_markup (description it)))
   else pg_ret tt) ;;;
  (let label := lit "Generate Image for " ++ name it in
   let key := Some (lit "gen_" ++ str_of_nat i) in
   pg_show (pg_button label key false) ;;;
   if clicked label key then
     if client then
       pg_show (pg_spinner (lit "Generating image for " ++ name it
                            ++ lit "...")) ;;;
       generated_image <-
         pg_lift (generate_food_image svc client (name it) (description it)) ;;
       match generated_image with
       | Some img =>
           pg_lift (draw_image svc img (lit "Generated: " ++ name it) 300)
       | None => pg_ret tt
       end
     else
       pg_show (pg_widget (st_warning (lit
         "Please enter your OpenAI API key to generate images")))
   else pg_ret tt) ;;;
  pg_show pg_divider.

Fixpoint item_rows (i : nat) (items : list menu_item) : P unit :=
  match items with
  | [] => pg_ret tt
  | it :: rest => item_row i it ;;; item_rows (i + 1) rest
  end.

(** The part of the page under [if client:], after the items. *)
Definition bulk_section (items : list menu_item) : P unit :=
  if client then
    pg_show (pg_subheader ([128640%N] ++ lit " Bulk Generation")) ;;;
    pg_show (pg_button (lit "Generate All Images") None true) ;;;
    if clicked (lit "Generate All Images") None then
      pg_show (pg_progress_bar 0) ;;;
      pg_lift (generate_all svc client items)
    else pg_ret tt
  else pg_ret tt.

Variable U : UnicodeDB.

(** The block under [if uploaded_file is not None:]. *)
Definition main_app_logic (uploaded_file : option upload) : P unit :=
  match uploaded_file with
  | None => pg_ret tt
  | Some file =>
      img <- pg_call (open_upload file) ;;
      pg_show (pg_columns 2) ;;;
      pg_show (pg_subheader ([128196%N] ++ lit " Uploaded Menu")) ;;;
      pg_call (Image_load _ _ _ svc img) ;;;
      pg_show (pg_picture img (lit "Uploaded Menu")) ;;;
      pg_show (pg_subheader ([128269%N] ++ lit " Processing...")) ;;;
      pg_show (pg_spinner (lit "Extracting text from image...")) ;;;
      extracted_text <- extract_text_from_image img ;;
      if truthy extracted_text then
        pg_show (pg_widget (st_success image
                              (lit "Text extracted successfully!"))) ;;;
        pg_show (pg_expander (lit "View Extracted Text")) ;;;
        pg_show (pg_text_area (lit "Raw Text") extracted_text 200) ;;;
        let menu_items := parse_menu_items U extracted_text in
        match menu_items with
        | _ :: _ =>
            pg_show (pg_subheader ([127869%N; 65039%N] ++ lit " Found "
                                   ++ str_of_nat (List.length menu_items)
                                   ++ lit " Menu Items")) ;;;
            item_rows 0 menu_items ;;;
            bulk_section menu_items
        | [] =>
            pg_show (pg_widget (st_warning (lit
              "No menu items could be identified. Try uploading a clearer image.")))
        end
      else
        pg_show (pg_widget (st_error (lit
          "Could not extract text from the image. Make sure the image is clear and contains readable text.")))
  end.

End Page.

Arguments pg_outside {world image}.
Arguments pg_shown {world image}.
Arguments pg_sent {world image}.
Arguments pg_widget {image}.
Arguments pg_lift {world image A}.
Arguments pg_ret {world image A}.
Arguments pg_bind {world image A B}.
Arguments pg_show {world image}.
Arguments extract_text_from_image {world image}.
Arguments item_row {world image bytes}.
Arguments item_rows {world image bytes}.
Arguments bulk_section {world image bytes}.
Arguments main_app_logic {world image bytes upload}.

(** The label and the key of the button of an item, and the items whose
    button is clicked, from index [i] on. *)
Definition row_label (it : menu_item) : str :=
  lit "Generate Image for " ++ name it.

Definition row_key (i : nat) : option str :=
  Some (lit "gen_" ++ str_of_nat i).

Fixpoint clicked_rows (clicked : str -> option str -> bool) (i : nat)
    (items : list menu_item) : list menu_item :=
  match items with
  | [] => []
  | it :: rest =>
      (if clicked (row_label it) (row_key i) then [it] else [])
      ++ clicked_rows clicked (i + 1) rest
  end.

(** The request made for an item. *)
Definition request_of (it : menu_item) : request :=
  image_request (build_prompt (name it) (description it)).

(** The requests of a run of the page with a client: those of the clicked
    items, then those of all items when the bulk button is clicked. *)
Definition page_requests (clicked : str -> option str -> bool)
    (items : list menu_item) : list request :=
  map request_of (clicked_rows clicked 0 items)
  ++ (if clicked (lit "Generate All Images") None
      then map request_of items else []).

(** What the page shows once it has a text. *)
Definition text_head {image : Type} (text : str) : list (page_event image) :=
  [pg_widget (st_success image (lit "Text extracted successfully!"));
   pg_expander image (lit "View Extracted Text");
   pg_text_area image (lit "Raw Text") text 200].

Definition found_header {image : Type} (n : nat) : page_event image :=
  pg_subheader image ([127869%N; 65039%N] ++ lit " Found " ++ str_of_nat n
                      ++ lit " Menu Items").

Definition no_text_error {image : Type} : page_event image :=
  pg_widget (st_error (lit
    "Could not extract text from the image. Make sure the image is clear and contains readable text.")).

Definition no_items_warning {image : Type} : page_event image :=
  pg_widget (st_warning (lit
    "No menu items could be identified. Try uploading a clearer image.")).

(** What the page shows for an upload before it extracts the text. *)
Definition page_head {image : Type} (img : image) : list (page_event image) :=
  [pg_columns image 2;
   pg_subheader image ([128196%N] ++ lit " Uploaded Menu");
   pg_picture image img (lit "Uploaded Menu");
   pg_subheader image ([128269%N] ++ lit " Processing...");
   pg_spinner image (lit "Extracting text from image...")].

(** ** How a run can end

    A computation that shows images can be ended by the decoding of one. *)

Definition prefix_of {A : Type} (a b : list A) : Prop := exists c, b = a ++ c.

Section Outcomes.

Variables world image bytes : Type.
Variable svc : services world image bytes.

(** An exception that the decoding of some image raises. *)
Definition raised_by_load (e : exn) : Prop :=
  exists img w w', Image_load _ _ _ svc img w = (inl e, w').

(** Every image can be decoded. *)
Definition all_decodable : Prop :=
  forall img w, exists w', Image_load _ _ _ svc img w = (inr tt, w').

(** [m] adds to what is shown and to what is sent, and nothing else
    happens to them; it sends [full] when it returns, a prefix of [full]
    when it raises, and it raises only what a decoding raises. *)
Definition runs (m : M world image unit) (full : list request) : Prop :=
  forall s, exists r s' evs reqs,
    m s = (r, s')
    /\ shown s' = shown s ++ evs
    /\ sent s' = sent s ++ reqs
    /\ prefix_of reqs full
    /\ (r = Return tt -> reqs = full)
    /\ (forall e, r = Raise e -> raised_by_load e).

(** The same for a computation of the page. *)
Definition sends (m : P world image unit) (full : list request) : Prop :=
  forall ps, exists r ps' evs reqs,
    m ps = (r, ps')
    /\ pg_shown ps' = pg_shown ps ++ evs
    /\ pg_sent ps' = pg_sent ps ++ reqs
    /\ prefix_of reqs full
    /\ (r = Return tt -> reqs = full)
    /\ (forall e, r = Raise e -> raised_by_load e).

End Outcomes.

Arguments raised_by_load {world image bytes}.
Arguments all_decodable {world image bytes}.
Arguments runs {world image bytes}.
Arguments sends {world image bytes}.

(** Sample surroundings for the page: an upload that opens, an OCR engine
    that is missing or that reads a given text, an image service that
    answers, and two ways of clicking. *)
Definition tesseract_missing : exn :=
  {| exn_str := lit "tesseract is not installed" |}.

Definition upload_opens : unit -> unit -> (exn + nat) * unit :=
  fun _ w => (inr 7, w).

Definition ocr_down : nat -> unit -> (exn + str) * unit :=
  fun _ w => (inl tesseract_missing, w).

Definition ocr_reads (text : str) : nat -> unit -> (exn + str) * unit :=
  fun _ w => (inr text, w).

Definition no_click : str -> option str -> bool := fun _ _ => false.

Definition click_bulk : str -> option str -> bool :=
  fun _ key => match key with None => true | Some _ => false end.

Definition fresh_page : page_state unit nat :=
  {| pg_outside := tt; pg_shown := []; pg_sent := [] |}.

Definition service_up : services unit nat nat :=
  {| images_generate := fun _ w => (inr [lit "https://example.org/1.png"], w);
     requests_get := fun _ w => (inr 5, w);
     Image_open := fun content w => (inr content, w);
     Image_load := fun _ w => (inr tt, w) |}.

(** An image service whose files open but cannot be decoded. *)
Definition truncated : exn := {| exn_str := lit "image file is truncated" |}.

Definition service_truncated : services unit nat nat :=
  {| images_generate := fun _ w => (inr [lit "https://example.org/1.png"], w);
     requests_get := fun _ w => (inr 5, w);
     Image_open := fun content w => (inr content, w);
     Image_load := fun _ w => (inl truncated, w) |}.

(** * Properties *)

(** ** Facts about the string primitives *)

Section StringFacts.

Lemma lstrip_nonspace c t : isspace c = false -> lstrip (c :: t) = c :: t.
Proof. intros H. simpl. now rewrite H. Qed.

Lemma lstrip_cases s :
  lstrip s = [] \/ exists c t, lstrip s = c :: t /\ isspace c = false.
Proof.
  induction s as [|c t IH]; simpl; [now left|].
  destruct (isspace c) eqn:E; [exact IH|].
  right. now exists c, t.
Qed.

Lemma lstrip_idem s : lstrip (lstrip s) = lstrip s.
Proof.
  destruct (lstrip_cases s) as [->|(c & t & -> & H)]; [reflexivity|].
  now apply lstrip_nonspace.
Qed.

Lemma lstrip_snoc s c :
  isspace c = false -> lstrip (s ++ [c]) = lstrip s ++ [c].
Proof.
  intros H. induction s as [|d t IH]; simpl.
  - now rewrite H.
  - destruct (isspace d); [exact IH | reflexivity].
Qed.

Lemma rstrip_cons c t : isspace c = false -> rstrip (c :: t) = c :: rstrip t.
Proof.
  intros H. unfold rstrip. simpl.
  rewrite (lstrip_snoc _ _ H), rev_app_distr. reflexivity.
Qed.

Lemma rstrip_idem s : rstrip (rstrip s) = rstrip s.
Proof. unfold rstrip. now rewrite rev_involutive, lstrip_idem. Qed.

(** A stripped string is empty or starts with a character that is not
    white space. *)
Lemma strip_cases s :
  strip s = [] \/
  exists c t, strip s = c :: rstrip t /\ lstrip s = c :: t /\ isspace c = false.
Proof.
  unfold strip.
  destruct (lstrip_cases s) as [->|(c & t & -> & H)]; [now left|].
  right. exists c, t. now rewrite (rstrip_cons _ _ H).
Qed.

Lemma strip_idem s : strip (strip s) = strip s.
Proof.
  destruct (strip_cases s) as [->|(c & t & E & _ & H)]; [reflexivity|].
  rewrite E. unfold strip at 1. rewrite (lstrip_nonspace _ _ H).
  rewrite <- (rstrip_cons _ _ H). apply rstrip_idem.
Qed.

Lemma strip_cons_nonspace c t :
  isspace c = false -> strip (c :: t) = c :: rstrip t.
Proof.
  intros H. unfold strip. rewrite (lstrip_nonspace _ _ H).
  now apply rstrip_cons.
Qed.

Lemma lstrip_incl s c : In c (lstrip s) -> In c s.
Proof.
  induction s as [|d t IH]; simpl; [tauto|].
  destruct (isspace d); [auto | now simpl].
Qed.

Lemma rstrip_incl s c : In c (rstrip s) -> In c s.
Proof.
  unfold rstrip. intros H. apply in_rev in H. apply lstrip_incl in H.
  now apply in_rev.
Qed.

Lemma strip_incl s c : In c (strip s) -> In c s.
Proof. intros H. now apply lstrip_incl, rstrip_incl. Qed.

Lemma strip_Forall (P : char -> Prop) s : Forall P s -> Forall P (strip s).
Proof.
  rewrite !Forall_forall. intros H c Hc. now apply H, strip_incl.
Qed.

(** Splitting at line feeds. *)
Lemma split_nl_nonempty s : split_nl s <> [].
Proof.
  destruct s as [|c t]; simpl; [discriminate|].
  destruct (c =? 10)%N; [discriminate|].
  destruct (split_nl t); discriminate.
Qed.

Lemma split_nl_no_nl s : ~ In 10%N s -> split_nl s = [s].
Proof.
  induction s as [|c t IH]; simpl; intros H; [reflexivity|].
  destruct (N.eqb_spec c 10) as [->|_]; [tauto|].
  rewrite IH by tauto. reflexivity.
Qed.

Lemma split_nl_app a b :
  split_nl (a ++ 10%N :: b) = split_nl a ++ split_nl b.
Proof.
  induction a as [|c t IH]; simpl.
  - reflexivity.
  - destruct (c =? 10)%N.
    + now rewrite IH.
    + rewrite IH. destruct (split_nl t) eqn:E.
      * now destruct (split_nl_nonempty t).
      * reflexivity.
Qed.

Lemma split_nl_incl s l c : In l (split_nl s) -> In c l -> In c s.
Proof.
  revert l. induction s as [|d t IH]; simpl; intros l Hl Hc.
  - destruct Hl as [<-|[]]. exact Hc.
  - destruct (d =? 10)%N.
    + destruct Hl as [<-|Hl]; [destruct Hc | right; eauto].
    + destruct (split_nl t) as [|l0 ls] eqn:E.
      * destruct Hl as [<-|[]]. destruct Hc as [->|[]]. now left.
      * destruct Hl as [<-|Hl].
        -- destruct Hc as [->|Hc]; [now left|]. right. apply (IH l0); simpl; auto.
        -- right. apply (IH l); simpl; auto.
Qed.

End StringFacts.

(** ** Facts about the loop *)

Section LoopFacts.

Variable U : UnicodeDB.

Lemma loop_body_skipped st raw :
  skipped U raw = true -> loop_body U st raw = st.
Proof.
  unfold skipped, classify, loop_body. cbv zeta.
  destruct (negb (truthy (strip raw))); [reflexivity|].
  destruct (is_noise U (strip raw)); [reflexivity|].
  destruct (looks_like_name U (strip raw)); discriminate.
Qed.

Lemma loop_body_name st raw :
  classify U raw = NameLine ->
  loop_body U st raw =
  {| menu_items := append_pending st (current_description st);
     current_item := stored_name U raw;
     current_description := [] |}.
Proof.
  unfold classify, loop_body, stored_name. cbv zeta.
  destruct (negb (truthy (strip raw))); [discriminate|].
  destruct (is_noise U (strip raw)); [discriminate|].
  destruct (looks_like_name U (strip raw)); [reflexivity | discriminate].
Qed.

Lemma loop_body_description st raw :
  classify U raw = DescriptionLine ->
  loop_body U st raw =
  {| menu_items := menu_items st;
     current_item := current_item st;
     current_description := current_description st ++ lit " " ++ strip raw |}.
Proof.
  unfold classify, loop_body. cbv zeta.
  destruct (negb (truthy (strip raw))); [discriminate|].
  destruct (is_noise U (strip raw)); [discriminate|].
  destruct (looks_like_name U (strip raw)); [discriminate | reflexivity].
Qed.

Lemma classify_cases raw :
  skipped U raw = true \/ classify U raw = NameLine
  \/ classify U raw = DescriptionLine.
Proof. unfold skipped. destruct (classify U raw); auto. Qed.

Lemma match_noise_head c t :
  Re.match_noise U (c :: t) = None -> Re.noise_class U c = false.
Proof.
  unfold Re.match_noise. simpl.
  destruct (Re.noise_class U c); [discriminate | reflexivity].
Qed.

Lemma noise_class_not_dollar c :
  Re.noise_class U c = false -> (c =? Re.dollar)%N = false.
Proof.
  unfold Re.noise_class. intros H.
  repeat (apply orb_false_elim in H; destruct H as [H ?]). assumption.
Qed.

(** The first character of a line that is not noise survives the removal
    of the prices. *)
Lemma stored_name_head raw :
  classify U raw = NameLine ->
  exists c t, stored_name U raw = c :: t /\ isspace c = false.
Proof.
  unfold classify, stored_name. cbv zeta. intros H.
  destruct (strip_cases raw) as [E|(c & t & E & _ & Hc)].
  - rewrite E in H. discriminate.
  - rewrite E in *. simpl in H.
    unfold is_noise in H.
    destruct (Re.match_noise U (c :: rstrip t)) eqn:M; [discriminate|].
    apply match_noise_head, noise_class_not_dollar in M.
    unfold Re.sub_price. simpl. rewrite M. simpl.
    rewrite (strip_cons_nonspace _ _ Hc). eauto.
Qed.

Lemma stored_name_truthy raw :
  classify U raw = NameLine -> truthy (stored_name U raw) = true.
Proof.
  intros H. destruct (stored_name_head _ H) as (c & t & -> & _). reflexivity.
Qed.

Lemma stored_name_stripped raw : strip (stored_name U raw) = stored_name U raw.
Proof. apply strip_idem. Qed.

Lemma run_loop_app l1 l2 st :
  run_loop U (l1 ++ l2) st = run_loop U l2 (run_loop U l1 st).
Proof. apply fold_left_app. Qed.

Lemma run_loop_cons raw l st :
  run_loop U (raw :: l) st = run_loop U l (loop_body U st raw).
Proof. reflexivity. Qed.

End LoopFacts.

(** ** The result depends on the database only through the characters of
    the text *)

Section Agreement.

Variables U V : UnicodeDB.

Lemma agree_ascii c : (c < 128)%N -> agree U V c.
Proof.
  intros H. unfold agree.
  rewrite !isdecimal_ascii, !isupper_ascii, !islower_ascii, !istitle_ascii
    by assumption.
  auto.
Qed.

Lemma ascii_only_agree s : ascii_only s = true -> Forall (agree U V) s.
Proof.
  unfold ascii_only. rewrite forallb_forall, Forall_forall.
  intros H c Hc. apply agree_ascii, N.ltb_lt, H, Hc.
Qed.

Lemma noise_class_agree c : agree U V c -> Re.noise_class U c = Re.noise_class V c.
Proof. intros (H & _). unfold Re.noise_class. now rewrite H. Qed.

Lemma price_class_agree c : agree U V c -> Re.price_class U c = Re.price_class V c.
Proof. intros (H & _). unfold Re.price_class. now rewrite H. Qed.

Lemma span_agree f g s :
  Forall (fun c => f c = g c) s -> Re.span f s = Re.span g s.
Proof.
  induction 1 as [|c t H _ IH]; simpl; [reflexivity|].
  rewrite H, IH. reflexivity.
Qed.

Lemma match_noise_agree s :
  Forall (agree U V) s -> Re.match_noise U s = Re.match_noise V s.
Proof.
  intros H. unfold Re.match_noise.
  rewrite (span_agree (Re.noise_class U) (Re.noise_class V)); [reflexivity|].
  eapply Forall_impl; [|exact H]. apply noise_class_agree.
Qed.

Lemma starts_with_agree f g s :
  Forall (fun c => f c = g c) s -> Re.starts_with f s = Re.starts_with g s.
Proof. destruct 1; simpl; auto. Qed.

Lemma search_price_agree s :
  Forall (agree U V) s -> Re.search_price U s = Re.search_price V s.
Proof.
  induction 1 as [|c t _ Ht IH]; simpl; [reflexivity|].
  rewrite IH. f_equal. f_equal. apply starts_with_agree.
  eapply Forall_impl; [|exact Ht]. now intros a (Ha & _).
Qed.

Lemma sub_price_from_agree s :
  Forall (agree U V) s ->
  forall inside, Re.sub_price_from U inside s = Re.sub_price_from V inside s.
Proof.
  induction 1 as [|c t Hc Ht IH]; intros inside; simpl; [reflexivity|].
  rewrite (price_class_agree _ Hc).
  rewrite (starts_with_agree (Re.price_class U) (Re.price_class V)).
  - now rewrite !IH.
  - eapply Forall_impl; [|exact Ht]. apply price_class_agree.
Qed.

Lemma isupper_loop_agree s :
  Forall (agree U V) s ->
  forall cased, isupper_loop U cased s = isupper_loop V cased s.
Proof.
  induction 1 as [|c t (_ & Hu & Hl & Ht) _ IH]; intros cased; simpl;
    [reflexivity|].
  now rewrite Hu, Hl, Ht, IH.
Qed.

Lemma isupper_agree s : Forall (agree U V) s -> Py.isupper U s = Py.isupper V s.
Proof.
  intros H. unfold Py.isupper.
  destruct s as [|c [|d t]].
  - reflexivity.
  - inversion H as [|? ? (_ & Hu & _) _]. exact Hu.
  - now apply isupper_loop_agree.
Qed.

Lemma istitle_loop_agree s :
  Forall (agree U V) s ->
  forall cased prev, istitle_loop U cased prev s = istitle_loop V cased prev s.
Proof.
  induction 1 as [|c t (_ & Hu & Hl & Ht) _ IH]; intros cased prev; simpl;
    [reflexivity|].
  now rewrite Hu, Hl, Ht, !IH.
Qed.

Lemma istitle_agree s : Forall (agree U V) s -> Py.istitle U s = Py.istitle V s.
Proof.
  intros H. unfold Py.istitle.
  destruct s as [|c [|d t]].
  - reflexivity.
  - inversion H as [|? ? (_ & Hu & _ & Ht) _]. now rewrite Hu, Ht.
  - now apply istitle_loop_agree.
Qed.

Lemma loop_body_agree st raw :
  Forall (agree U V) raw -> loop_body U st raw = loop_body V st raw.
Proof.
  intros H. apply (strip_Forall _ raw) in H.
  unfold loop_body, is_noise, looks_like_name. cbv zeta.
  rewrite (match_noise_agree _ H), (search_price_agree _ H),
    (isupper_agree _ H), (istitle_agree _ H).
  unfold Re.sub_price. rewrite (sub_price_from_agree _ H). reflexivity.
Qed.

Lemma run_loop_agree lines :
  Forall (Forall (agree U V)) lines ->
  forall st, run_loop U lines st = run_loop V lines st.
Proof.
  induction 1 as [|raw rest H _ IH]; intros st; [reflexivity|].
  rewrite !run_loop_cons, (loop_body_agree _ _ H). apply IH.
Qed.

Lemma parse_menu_items_agree text :
  Forall (agree U V) text -> parse_menu_items U text = parse_menu_items V text.
Proof.
  intros H. unfold parse_menu_items. rewrite run_loop_agree; [reflexivity|].
  rewrite Forall_forall in H. apply Forall_forall. intros l Hl.
  apply Forall_forall. intros c Hc.
  apply H. eapply split_nl_incl; eassumption.
Qed.

End Agreement.

(** On an ASCII text every database gives the result of [ascii_db]. *)
Lemma parse_menu_items_ascii U text :
  ascii_only text = true ->
  parse_menu_items U text = parse_menu_items ascii_db text.
Proof. intros H. now apply parse_menu_items_agree, ascii_only_agree. Qed.

(** ** Names and order (C5, C7) *)

Section Names.

Variable U : UnicodeDB.

Lemma names_loop_body st raw :
  names_so_far (loop_body U st raw) =
  names_so_far st ++ (if is_name_line U raw then [stored_name U raw] else []).
Proof.
  unfold is_name_line.
  destruct (classify_cases U raw) as [H|[H|H]].
  - rewrite (loop_body_skipped _ _ _ H). unfold skipped in H.
    destruct (classify U raw); try discriminate; now rewrite app_nil_r.
  - rewrite (loop_body_name _ _ _ H), H.
    unfold names_so_far, pending, append_pending. simpl.
    rewrite (stored_name_truthy _ _ H).
    destruct (truthy (current_item st)).
    + now rewrite map_app.
    + now rewrite app_nil_r.
  - rewrite (loop_body_description _ _ _ H), H.
    unfold names_so_far, pending. simpl. now rewrite app_nil_r.
Qed.

Lemma names_run_loop lines st :
  names_so_far (run_loop U lines st) =
  names_so_far st ++ map (stored_name U) (filter (is_name_line U) lines).
Proof.
  revert st. induction lines as [|raw rest IH]; intros st.
  - simpl. now rewrite app_nil_r.
  - rewrite run_loop_cons, IH, names_loop_body. simpl.
    destruct (is_name_line U raw); simpl.
    + now rewrite <- app_assoc.
    + now rewrite app_nil_r.
Qed.

Lemma names_finish st : map name (finish st) = names_so_far st.
Proof.
  unfold finish, append_pending, names_so_far, pending.
  destruct (truthy (current_item st)).
  - now rewrite map_app.
  - now rewrite app_nil_r.
Qed.

Lemma names_parse text :
  map name (parse_menu_items U text) =
  map (stored_name U) (filter (is_name_line U) (split_nl text)).
Proof.
  unfold parse_menu_items. now rewrite names_finish, names_run_loop.
Qed.

(** C5. The names of the returned items are, in order, what the loop
    stored at the name lines of the text: one item for each name line, in
    the order in which the name lines occur. *)
Theorem order_preservation text :
  map name (parse_menu_items U text) =
  map (stored_name U) (filter (is_name_line U) (split_nl text))
  /\ List.length (parse_menu_items U text) =
     List.length (filter (is_name_line U) (split_nl text)).
Proof.
  split; [apply names_parse|].
  rewrite <- (length_map name), names_parse. apply length_map.
Qed.

(** C7. Every returned item has a name that is non-empty after trimming;
    the name is already trimmed. *)
Theorem name_never_empty text :
  Forall (fun it => truthy (strip (name it)) = true
                    /\ strip (name it) = name it)
         (parse_menu_items U text).
Proof.
  assert (H : Forall (fun n => truthy (strip n) = true /\ strip n = n)
                     (map name (parse_menu_items U text))).
  { rewrite names_parse. apply Forall_forall. intros n Hn.
    apply in_map_iff in Hn. destruct Hn as (raw & <- & Hraw).
    apply filter_In in Hraw. destruct Hraw as (_ & Hraw).
    unfold is_name_line in Hraw.
    destruct (classify U raw) eqn:E; try discriminate.
    rewrite stored_name_stripped. split; [|reflexivity].
    now apply stored_name_truthy. }
  rewrite Forall_forall in *. intros it Hit. apply H. now apply in_map.
Qed.

End Names.

(** ** Totality, noise and dangling descriptions (C2, C3, C6) *)

Section Lines.

Variable U : UnicodeDB.

Lemma run_loop_skipped lines st :
  Forall (fun raw => skipped U raw = true) lines -> run_loop U lines st = st.
Proof.
  induction 1 as [|raw rest H _ IH]; [reflexivity|].
  now rewrite run_loop_cons, (loop_body_skipped _ _ _ H).
Qed.

(** A line that starts, once stripped, with a digit or a currency sign, or
    that is then shorter than three characters, is passed over. *)
Lemma noise_skipped raw :
  Re.starts_with (Re.noise_class U) (strip raw) = true
  \/ len (strip raw) < 3 ->
  skipped U raw = true.
Proof.
  unfold skipped, classify, is_noise, Re.match_noise. cbv zeta. intros H.
  destruct (strip raw) as [|c t]; [reflexivity|]. cbn [truthy negb].
  destruct H as [H|H].
  - simpl in H. cbn [Re.span]. rewrite H. reflexivity.
  - apply Nat.ltb_lt in H. rewrite H, orb_true_r. reflexivity.
Qed.

Lemma white_or_digit_skipped raw :
  Forall (fun c => isspace c = true \/ isdecimal U c = true) raw ->
  skipped U raw = true.
Proof.
  intros H. apply (strip_Forall _ raw) in H.
  apply noise_skipped.
  destruct (strip_cases raw) as [E|(c & t & E & _ & Hc)].
  - right. rewrite E. simpl. lia.
  - left. rewrite E in *. inversion H as [|? ? [Hs|Hd] _]; subst.
    + congruence.
    + simpl. unfold Re.noise_class. now rewrite Hd.
Qed.

(** C2. [parse_menu_items] is a function from strings to sequences of
    items: it gives a result on every string, the empty sequence on the
    empty string and on every string made of white space and digits. *)
Theorem parse_total :
  (forall s, exists items, parse_menu_items U s = items)
  /\ parse_menu_items U [] = []
  /\ (forall s,
        Forall (fun c => isspace c = true \/ isdecimal U c = true) s ->
        parse_menu_items U s = []).
Proof.
  split; [eauto|]. split; [reflexivity|].
  intros s H. unfold parse_menu_items.
  rewrite run_loop_skipped; [reflexivity|].
  apply Forall_forall. intros l Hl. apply white_or_digit_skipped.
  rewrite Forall_forall in *. intros c Hc. apply H.
  eapply split_nl_incl; eassumption.
Qed.

Lemma run_loop_insert_skipped l1 x l2 st :
  skipped U x = true ->
  run_loop U (l1 ++ x :: l2) st = run_loop U (l1 ++ l2) st.
Proof.
  intros H.
  now rewrite !run_loop_app, run_loop_cons, (loop_body_skipped _ _ _ H).
Qed.

(** C3. A noise line (a line that starts, once stripped, with a digit or a
    currency sign, or that is then shorter than three characters) changes
    nothing, whether or not it also looks like a dish name: the state of
    the loop is the same after it, it is not a name line, and the result is
    the same when it is inserted before the first line, after the last line
    or between two lines of a text. *)
Theorem noise_invariance x :
  ~ In LF x ->
  Re.starts_with (Re.noise_class U) (strip x) = true \/ len (strip x) < 3 ->
  (forall st, loop_body U st x = st)
  /\ is_name_line U x = false
  /\ (forall t, parse_menu_items U (x ++ LF :: t) = parse_menu_items U t)
  /\ (forall t, parse_menu_items U (t ++ LF :: x) = parse_menu_items U t)
  /\ (forall t1 t2, parse_menu_items U (t1 ++ LF :: x ++ LF :: t2)
                    = parse_menu_items U (t1 ++ LF :: t2)).
Proof.
  intros Hx Hn. apply noise_skipped in Hn.
  assert (Hs : split_nl x = [x]) by now apply split_nl_no_nl.
  repeat split.
  - intros st. now apply loop_body_skipped.
  - unfold is_name_line. unfold skipped in Hn.
    destruct (classify U x); [reflexivity | reflexivity | discriminate ..].
  - intros t. unfold parse_menu_items, LF.
    rewrite split_nl_app, Hs.
    now rewrite (run_loop_insert_skipped [] x (split_nl t)).
  - intros t. unfold parse_menu_items, LF.
    rewrite split_nl_app, Hs.
    rewrite (run_loop_insert_skipped (split_nl t) x []) by assumption.
    now rewrite app_nil_r.
  - intros t1 t2. unfold parse_menu_items, LF.
    rewrite !split_nl_app, Hs.
    now rewrite (run_loop_insert_skipped (split_nl t1) x (split_nl t2)).
Qed.

(** While no name is pending and nothing was appended, the accumulated
    description has no influence on the result. *)
Lemma dangling_description_lost lines d1 d2 :
  finish (run_loop U lines
    {| menu_items := []; current_item := []; current_description := d1 |})
  = finish (run_loop U lines
    {| menu_items := []; current_item := []; current_description := d2 |}).
Proof.
  revert d1 d2. induction lines as [|raw rest IH]; intros d1 d2.
  - reflexivity.
  - rewrite !run_loop_cons.
    destruct (classify_cases U raw) as [H|[H|H]].
    + rewrite !(loop_body_skipped _ _ _ H). apply IH.
    + rewrite !(loop_body_name _ _ _ H). reflexivity.
    + rewrite !(loop_body_description _ _ _ H). simpl. apply IH.
Qed.

Lemma run_loop_no_name lines d :
  Forall (fun raw => is_name_line U raw = false) lines ->
  exists d',
    run_loop U lines
      {| menu_items := []; current_item := []; current_description := d |}
    = {| menu_items := []; current_item := []; current_description := d' |}.
Proof.
  intros H. revert d. induction H as [|raw rest H _ IH]; intros d.
  - now exists d.
  - rewrite run_loop_cons. unfold is_name_line in H.
    destruct (classify_cases U raw) as [E|[E|E]].
    + rewrite (loop_body_skipped _ _ _ E). apply IH.
    + rewrite E in H. discriminate.
    + rewrite (loop_body_description _ _ _ E). simpl. apply IH.
Qed.

(** C6. Lines before the first name line leave no trace: when no line of
    [pre] is a name line, the text [pre] alone gives no item, however much
    description-like text it holds, and a text that starts with the lines of
    [pre] gives the items of the rest of the text. *)
Theorem dangling_descriptions_discarded pre :
  Forall (fun raw => is_name_line U raw = false) (split_nl pre) ->
  parse_menu_items U pre = []
  /\ forall rest,
       parse_menu_items U (pre ++ LF :: rest) = parse_menu_items U rest.
Proof.
  intros H.
  destruct (run_loop_no_name _ [] H) as (d & Hd).
  unfold parse_menu_items, initial_state, LF. split.
  - rewrite Hd. reflexivity.
  - intros rest. rewrite split_nl_app, run_loop_app, Hd.
    apply dangling_description_lost.
Qed.

End Lines.

(** ** Finalisation and price stripping (C1, C4, C10) *)

Section Prices.

Variable U : UnicodeDB.

(** At a name line the pending item is appended with the description as
    accumulated, leading space included; only the code after the loop
    strips it. *)
Lemma superseded_item_description st raw :
  classify U raw = NameLine ->
  truthy (current_item st) = true ->
  menu_items (loop_body U st raw) =
  menu_items st ++ [{| name := current_item st;
                       description := current_description st |}].
Proof.
  intros H Hc. rewrite (loop_body_name _ _ _ H). simpl.
  unfold append_pending. now rewrite Hc.
Qed.

Lemma flushed_item_description st :
  truthy (current_item st) = true ->
  finish st =
  menu_items st ++ [{| name := current_item st;
                       description := strip (current_description st) |}].
Proof. intros Hc. unfold finish, append_pending. now rewrite Hc. Qed.

(** C1, as the code behaves: on the example text of P5 the item appended at
    the name line [BEEF BURGER $15] carries the accumulated description
    unstripped, with its leading space, so the result is not the one the
    specification gives; the last item, appended after the loop, is
    stripped. *)
Theorem p5_first_description_keeps_space :
  parse_menu_items U p5 =
    [item "CAESAR SALAD"
          " Crisp romaine, parmesan, croutons with house dressing";
     item "BEEF BURGER" "Served with fries"]
  /\ parse_menu_items U p5 <>
    [item "CAESAR SALAD"
          "Crisp romaine, parmesan, croutons with house dressing";
     item "BEEF BURGER" "Served with fries"].
Proof.
  rewrite (parse_menu_items_ascii U p5) by reflexivity.
  split; [vm_compute; reflexivity | vm_compute; discriminate].
Qed.

Lemma parse_single_name_line raw :
  ~ In LF raw ->
  classify U raw = NameLine ->
  parse_menu_items U raw =
  [{| name := strip (Re.sub_price U (strip raw)); description := [] |}].
Proof.
  intros Hraw H. unfold parse_menu_items.
  rewrite (split_nl_no_nl _ Hraw). unfold run_loop. simpl.
  rewrite (loop_body_name _ _ _ H).
  rewrite flushed_item_description by now apply stored_name_truthy.
  reflexivity.
Qed.

(** C4. At a name line the stored name is the line with its [$<number>]
    parts removed, then stripped: a text of one name line gives one item
    with that name and an empty description; the line
    [GRILLED SALMON $24] gives the name [GRILLED SALMON]. *)
Theorem price_stripping :
  (forall st raw,
     classify U raw = NameLine ->
     current_item (loop_body U st raw)
     = strip (Re.sub_price U (strip raw)))
  /\ (forall raw,
        ~ In LF raw ->
        classify U raw = NameLine ->
        parse_menu_items U raw =
        [{| name := strip (Re.sub_price U (strip raw));
            description := [] |}])
  /\ parse_menu_items U (lit "GRILLED SALMON $24")
     = [item "GRILLED SALMON" ""].
Proof.
  split; [|split].
  - intros st raw H. now rewrite (loop_body_name _ _ _ H).
  - apply parse_single_name_line.
  - rewrite parse_menu_items_ascii by reflexivity. reflexivity.
Qed.






End Prices.

(** ** The image requester (C8, C9) *)

Section RequesterFacts.

Variables world image bytes : Type.
Variable svc : services world image bytes.

Ltac run_requester :=
  unfold generate_food_image, try_except, bind, record_request, call,
    first_of, show, ret, raise; cbn [negb fst snd outside shown sent].

(** With a client, a call of [generate_food_image] returns, whatever the
    outside does, and sends exactly one request. *)
Lemma generate_food_image_returns dish desc s :
  exists r s',
    generate_food_image svc true dish desc s = (Return r, s')
    /\ sent s' = sent s ++ [image_request (build_prompt dish desc)].
Proof.
  run_requester.
  destruct (images_generate _ _ _ svc _ (outside s))
    as [[e|[|url data]] w1]; cbn; eauto.
  destruct (requests_get _ _ _ svc url w1) as [[e|content] w2]; cbn; eauto.
  destruct (Image_open _ _ _ svc content w2) as [[e|img] w3]; cbn; eauto.
Qed.

(** C9. The prompt is the fixed opening and the dish name, then, for a
    non-empty description only, a comma, a space and the first hundred
    characters of the description, then the fixed suffix; it is the prompt
    of the request that goes to the image service. *)
Theorem prompt_construction dish desc :
  build_prompt dish desc =
    lit "A high-quality, appetizing photo of " ++ dish
    ++ (if truthy desc then lit ", " ++ firstn 100 desc else [])
    ++ lit ", professional food photography, well-lit, restaurant quality"
  /\ forall s, exists r s',
       generate_food_image svc true dish desc s = (Return r, s')
       /\ map req_prompt (sent s')
          = map req_prompt (sent s) ++ [build_prompt dish desc].
Proof.
  split.
  - unfold build_prompt, slice_to. cbv zeta.
    destruct (truthy desc); now rewrite <- ?app_assoc.
  - intros s.
    destruct (generate_food_image_returns dish desc s) as (r & s' & E & Hs).
    exists r, s'. split; [exact E|].
    now rewrite Hs, map_app.
Qed.

(** What the [try] block catches: with or without a client the call of
    [generate_food_image] returns; when the generation call raises, when it
    gives no result, when the download raises and when [Image.open] raises,
    it returns [None] and the page shows one error message that names the
    dish and the failure. *)
Lemma failures_inside_try_caught dish desc s :
  let req := image_request (build_prompt dish desc) in
  let failed w e :=
    (Return (@None image),
     {| outside := w;
        shown := shown s ++ [st_error (error_message dish e)];
        sent := sent s ++ [req] |}) in
  (forall client, exists r s',
     generate_food_image svc client dish desc s = (Return r, s'))
  /\ (forall e w,
        images_generate _ _ _ svc req (outside s) = (inl e, w) ->
        generate_food_image svc true dish desc s = failed w e)
  /\ (forall w,
        images_generate _ _ _ svc req (outside s) = (inr [], w) ->
        generate_food_image svc true dish desc s = failed w IndexError)
  /\ (forall url data w e w',
        images_generate _ _ _ svc req (outside s) = (inr (url :: data), w) ->
        requests_get _ _ _ svc url w = (inl e, w') ->
        generate_food_image svc true dish desc s = failed w' e)
  /\ (forall url data w content w' e w'',
        images_generate _ _ _ svc req (outside s) = (inr (url :: data), w) ->
        requests_get _ _ _ svc url w = (inr content, w') ->
        Image_open _ _ _ svc content w' = (inl e, w'') ->
        generate_food_image svc true dish desc s = failed w'' e).
Proof.
  cbv zeta. repeat apply conj.
  - intros [|].
    + destruct (generate_food_image_returns dish desc s) as (r & s' & E & _).
      eauto.
    + run_requester. eauto.
  - intros e w H. run_requester. now rewrite H.
  - intros w H. run_requester. now rewrite H.
  - intros url data w e w' H1 H2. run_requester. rewrite H1. cbn.
    now rewrite H2.
  - intros url data w content w' e w'' H1 H2 H3. run_requester.
    rewrite H1. cbn. rewrite H2. cbn. now rewrite H3.
Qed.

(** What the [try] block misses: an image that opens but cannot be decoded.
    [generate_food_image] returns it without a message; the decoding inside
    [st.image] raises in the bulk loop, outside any [try]: the exception
    leaves the loop and the items after this one are not requested. *)
Lemma undecodable_image_ends_loop it rest total i s
    url data w1 content w2 img w3 e w4 :
  let req := image_request (build_prompt (name it) (description it)) in
  images_generate _ _ _ svc req (outside s) = (inr (url :: data), w1) ->
  requests_get _ _ _ svc url w1 = (inr content, w2) ->
  Image_open _ _ _ svc content w2 = (inr img, w3) ->
  Image_load _ _ _ svc img w3 = (inl e, w4) ->
  generate_food_image svc true (name it) (description it) s
  = (Return (Some img),
     {| outside := w3; shown := shown s; sent := sent s ++ [req] |})
  /\ for_each svc true total i (it :: rest) s
     = (Raise e,
        {| outside := w4;
           shown := shown s ++ [st_spinner image (i + 1) total (name it)];
           sent := sent s ++ [req] |}).
Proof.
  cbv zeta. intros H1 H2 H3 H4. split.
  - run_requester. rewrite H1. cbn. rewrite H2. cbn. now rewrite H3.
  - cbn [for_each]. unfold bulk_step, draw_image. run_requester.
    rewrite H1. cbn. rewrite H2. cbn. rewrite H3. cbn. now rewrite H4.
Qed.

End RequesterFacts.

(** C8, as the code behaves: a failure of the decoding of the image is not
    caught.  With an image service whose files open but cannot be decoded,
    [generate_food_image] returns the image and shows no message; the bulk
    run over two items is ended by the exception at the first item, before
    the second item is requested and with no error message on the page. *)
Theorem undecodable_image_escapes :
  generate_food_image service_truncated true (lit "PIZZA") [] fresh_session
  = (Return (Some 5),
     {| outside := tt; shown := [];
        sent := [image_request (build_prompt (lit "PIZZA") [])] |})
  /\ generate_all service_truncated true [item "PIZZA" ""; item "PASTA" ""]
       fresh_session
     = (Raise truncated,
        {| outside := tt;
           shown := [st_spinner nat 1 2 (lit "PIZZA")];
           sent := [image_request (build_prompt (lit "PIZZA") [])] |}).
Proof.
  destruct (undecodable_image_ends_loop unit nat nat service_truncated
              (item "PIZZA" "") [item "PASTA" ""] 2 0 fresh_session
              (lit "https://example.org/1.png") [] tt 5 tt 5 tt truncated tt
              eq_refl eq_refl eq_refl eq_refl) as (H1 & H2).
  split; [exact H1|].
  unfold generate_all, bind. cbn [List.length]. now rewrite H2.
Qed.


(** ** The theorems at sample inputs *)

Lemma parse_total_witness :
  Forall (fun c => isspace c = true \/ isdecimal ascii_db c = true)
         (lit " 12 " ++ LF :: lit "7")
  /\ parse_menu_items ascii_db (lit " 12 " ++ LF :: lit "7") = [].
Proof.
  assert (H : Forall (fun c => isspace c = true \/ isdecimal ascii_db c = true)
                     (lit " 12 " ++ LF :: lit "7")).
  { repeat (apply Forall_cons;
            [first [left; reflexivity | right; reflexivity]|]).
    apply Forall_nil. }
  split; [exact H|].
  exact (proj2 (proj2 (parse_total ascii_db)) _ H).
Defined.

Lemma noise_invariance_witness :
  ~ In LF (lit "$12.99")
  /\ (Re.starts_with (Re.noise_class ascii_db) (strip (lit "$12.99")) = true
      \/ len (strip (lit "$12.99")) < 3)
  /\ forall t1 t2,
       parse_menu_items ascii_db (t1 ++ LF :: lit "$12.99" ++ LF :: t2)
       = parse_menu_items ascii_db (t1 ++ LF :: t2).
Proof.
  assert (H1 : ~ In LF (lit "$12.99")).
  { cbv. intuition discriminate. }
  assert (H2 : Re.starts_with (Re.noise_class ascii_db) (strip (lit "$12.99"))
               = true
               \/ len (strip (lit "$12.99")) < 3).
  { left. reflexivity. }
  split; [exact H1|]. split; [exact H2|].
  exact (proj2 (proj2 (proj2 (proj2
           (noise_invariance ascii_db (lit "$12.99") H1 H2))))).
Defined.

Lemma price_stripping_witness :
  ~ In LF (lit "GRILLED SALMON $24")
  /\ classify ascii_db (lit "GRILLED SALMON $24") = NameLine
  /\ parse_menu_items ascii_db (lit "GRILLED SALMON $24") =
     [{| name := strip (Re.sub_price ascii_db
                          (strip (lit "GRILLED SALMON $24")));
         description := [] |}].
Proof.
  assert (H1 : ~ In LF (lit "GRILLED SALMON $24")).
  { cbv. intuition discriminate. }
  assert (H2 : classify ascii_db (lit "GRILLED SALMON $24") = NameLine).
  { reflexivity. }
  split; [exact H1|]. split; [exact H2|].
  exact (proj1 (proj2 (price_stripping ascii_db)) _ H1 H2).
Defined.

Lemma dangling_descriptions_discarded_witness :
  Forall (fun raw => is_name_line ascii_db raw = false)
         (split_nl (lit "fresh every day, ask your server"))
  /\ parse_menu_items ascii_db (lit "fresh every day, ask your server") = []
  /\ forall rest,
       parse_menu_items ascii_db
         (lit "fresh every day, ask your server" ++ LF :: rest)
       = parse_menu_items ascii_db rest.
Proof.
  assert (H : Forall (fun raw => is_name_line ascii_db raw = false)
                     (split_nl (lit "fresh every day, ask your server"))).
  { apply Forall_cons; [reflexivity | apply Forall_nil]. }
  split; [exact H|].
  exact (dangling_descriptions_discarded ascii_db _ H).
Defined.


(** * Further properties of the code *)

(** ** The parser, block by block *)

Section BlockFacts.

Variable U : UnicodeDB.

Lemma parse_lines_split text :
  parse_menu_items U text = parse_lines U (split_nl text).
Proof. reflexivity. Qed.

Lemma joined_cons raw block :
  joined U (raw :: block)
  = (if is_description_line U raw then lit " " ++ strip raw else [])
    ++ joined U block.
Proof.
  unfold joined. cbn [filter].
  destruct (is_description_line U raw); [|reflexivity].
  cbn [map List.concat]. now rewrite <- app_assoc.
Qed.

(** A block without a name line only extends the description. *)
Lemma run_loop_block block st :
  Forall (fun raw => is_name_line U raw = false) block ->
  run_loop U block st =
  {| menu_items := menu_items st;
     current_item := current_item st;
     current_description := current_description st ++ joined U block |}.
Proof.
  intros H. revert st. induction H as [|raw rest H _ IH]; intros st.
  - cbn. rewrite app_nil_r. now destruct st.
  - rewrite run_loop_cons, IH, joined_cons.
    unfold is_name_line, is_description_line in *.
    destruct (classify_cases U raw) as [E|[E|E]].
    + rewrite (loop_body_skipped _ _ _ E). unfold skipped in E.
      destruct (classify U raw); try discriminate; reflexivity.
    + rewrite E in H. discriminate.
    + rewrite (loop_body_description _ _ _ E), E. cbn.
      now rewrite <- !app_assoc.
Qed.

(** The items already appended stay in front, whatever follows. *)
Lemma loop_body_frame front st raw :
  loop_body U {| menu_items := front ++ menu_items st;
                 current_item := current_item st;
                 current_description := current_description st |} raw
  = {| menu_items := front ++ menu_items (loop_body U st raw);
       current_item := current_item (loop_body U st raw);
       current_description := current_description (loop_body U st raw) |}.
Proof.
  destruct (classify_cases U raw) as [E|[E|E]].
  - now rewrite !(loop_body_skipped _ _ _ E).
  - rewrite !(loop_body_name _ _ _ E). unfold append_pending. cbn.
    destruct (truthy (current_item st)); [now rewrite app_assoc | reflexivity].
  - now rewrite !(loop_body_description _ _ _ E).
Qed.

Lemma run_loop_frame front lines st :
  run_loop U lines {| menu_items := front ++ menu_items st;
                      current_item := current_item st;
                      current_description := current_description st |}
  = {| menu_items := front ++ menu_items (run_loop U lines st);
       current_item := current_item (run_loop U lines st);
       current_description := current_description (run_loop U lines st) |}.
Proof.
  revert st. induction lines as [|raw rest IH]; intros st.
  - reflexivity.
  - now rewrite !run_loop_cons, loop_body_frame, IH.
Qed.

Lemma finish_frame front st :
  finish {| menu_items := front ++ menu_items st;
            current_item := current_item st;
            current_description := current_description st |}
  = front ++ finish st.
Proof.
  unfold finish, append_pending. cbn.
  destruct (truthy (current_item st)); [now rewrite app_assoc | reflexivity].
Qed.

Lemma parse_lines_name_block n block :
  is_name_line U n = true ->
  Forall (fun raw => is_name_line U raw = false) block ->
  run_loop U (n :: block) initial_state =
  {| menu_items := [];
     current_item := stored_name U n;
     current_description := joined U block |}.
Proof.
  intros Hn Hb. unfold is_name_line in Hn.
  destruct (classify U n) eqn:E; try discriminate.
  rewrite run_loop_cons, (loop_body_name _ _ _ E), (run_loop_block _ _ Hb).
  reflexivity.
Qed.

Lemma superseded_block_lines n block n' rest :
  is_name_line U n = true ->
  Forall (fun raw => is_name_line U raw = false) block ->
  is_name_line U n' = true ->
  parse_lines U (n :: block ++ n' :: rest)
  = {| name := stored_name U n; description := joined U block |}
    :: parse_lines U (n' :: rest).
Proof.
  intros Hn Hb Hn'. unfold parse_lines.
  change (n :: block ++ n' :: rest) with ((n :: block) ++ n' :: rest).
  rewrite run_loop_app, (parse_lines_name_block _ _ Hn Hb).
  unfold is_name_line in Hn'.
  destruct (classify U n') eqn:E'; try discriminate.
  rewrite !run_loop_cons, !(loop_body_name _ _ _ E').
  unfold append_pending. cbn [current_item menu_items current_description
    initial_state truthy].
  assert (Ht : truthy (stored_name U n) = true).
  { apply stored_name_truthy. unfold is_name_line in Hn.
    now destruct (classify U n). }
  rewrite Ht. cbn [app].
  set (st := {| menu_items := []; current_item := stored_name U n';
                current_description := [] |}).
  change ({| menu_items := [{| name := stored_name U n;
                               description := joined U block |}];
             current_item := stored_name U n';
             current_description := [] |})
    with {| menu_items := [{| name := stored_name U n;
                              description := joined U block |}]
                          ++ menu_items st;
            current_item := current_item st;
            current_description := current_description st |}.
  rewrite run_loop_frame, finish_frame. reflexivity.
Qed.

Lemma last_block_lines n block :
  is_name_line U n = true ->
  Forall (fun raw => is_name_line U raw = false) block ->
  parse_lines U (n :: block)
  = [{| name := stored_name U n; description := strip (joined U block) |}].
Proof.
  intros Hn Hb. unfold parse_lines.
  rewrite (parse_lines_name_block _ _ Hn Hb).
  apply flushed_item_description. cbn.
  apply stored_name_truthy. unfold is_name_line in Hn.
  now destruct (classify U n).
Qed.

(** X1. A name line [n] followed by text [rest] that starts with a name
    line gives an item with the name stored for [n] and an empty
    description, then the items of [rest].  With text [b] without a name
    line in between, the description of that item is the description lines
    of [b], each after one space, with nothing stripped. *)
Theorem superseded_block n rest :
  ~ In LF n ->
  is_name_line U n = true ->
  is_name_line U (hd [] (split_nl rest)) = true ->
  parse_menu_items U (n ++ LF :: rest)
  = {| name := stored_name U n; description := [] |}
    :: parse_menu_items U rest
  /\ forall b,
       Forall (fun raw => is_name_line U raw = false) (split_nl b) ->
       parse_menu_items U (n ++ LF :: b ++ LF :: rest)
       = {| name := stored_name U n; description := joined U (split_nl b) |}
         :: parse_menu_items U rest.
Proof.
  intros Hnl Hn Hr. rewrite !parse_lines_split. unfold LF.
  destruct (split_nl rest) as [|n' r] eqn:E.
  - now destruct (split_nl_nonempty rest).
  - cbn [hd] in Hr. split.
    + rewrite split_nl_app, (split_nl_no_nl _ Hnl), E.
      now apply (superseded_block_lines n []).
    + intros b Hb. rewrite parse_lines_split.
      rewrite !split_nl_app, (split_nl_no_nl _ Hnl), E.
      now apply superseded_block_lines.
Qed.

(** X2. A name line [n], then text [b] without a name line, up to the end
    of the text: one item, with the name stored for [n] and, as
    description, the description lines of [b], each after one space,
    stripped as a whole. *)
Theorem last_block n b :
  ~ In LF n ->
  is_name_line U n = true ->
  Forall (fun raw => is_name_line U raw = false) (split_nl b) ->
  parse_menu_items U (n ++ LF :: b)
  = [{| name := stored_name U n;
        description := strip (joined U (split_nl b)) |}].
Proof.
  intros Hnl Hn Hb. rewrite parse_lines_split. unfold LF.
  rewrite split_nl_app, (split_nl_no_nl _ Hnl).
  now apply last_block_lines.
Qed.

End BlockFacts.

(** ** What the returned items look like *)

Section Shapes.

Variable U : UnicodeDB.

(** A property of every name stored at a name line holds of every returned
    name. *)
Lemma names_forall (P : str -> Prop) text :
  (forall raw, classify U raw = NameLine -> P (stored_name U raw)) ->
  Forall (fun it => P (name it)) (parse_menu_items U text).
Proof.
  intros H.
  assert (Hn : Forall P (map name (parse_menu_items U text))).
  { rewrite names_parse. apply Forall_forall. intros n Hn.
    apply in_map_iff in Hn. destruct Hn as (raw & <- & Hraw).
    apply filter_In in Hraw. destruct Hraw as (_ & Hraw).
    unfold is_name_line in Hraw. apply H.
    now destruct (classify U raw). }
  rewrite Forall_forall in *. intros it Hit. apply Hn. now apply in_map.
Qed.

Lemma lstrip_length s : List.length (lstrip s) <= List.length s.
Proof.
  induction s as [|c t IH]; cbn; [lia|].
  destruct (isspace c); cbn; lia.
Qed.

Lemma strip_length s : len (strip s) <= len s.
Proof.
  unfold len, strip, rstrip. rewrite length_rev.
  etransitivity; [apply lstrip_length|]. rewrite length_rev.
  apply lstrip_length.
Qed.

Lemma sub_price_from_length inside s :
  List.length (Re.sub_price_from U inside s) <= List.length s.
Proof.
  revert inside. induction s as [|c t IH]; intros inside; cbn; [lia|].
  destruct (inside && Re.price_class U c).
  - specialize (IH true). lia.
  - destruct ((c =? Re.dollar)%N && Re.starts_with (Re.price_class U) t).
    + specialize (IH true). lia.
    + specialize (IH false). cbn. lia.
Qed.

Lemma name_line_short raw :
  classify U raw = NameLine -> len (strip raw) < 50.
Proof.
  unfold classify, looks_like_name. cbv zeta.
  destruct (negb (truthy (strip raw))); [discriminate|].
  destruct (is_noise U (strip raw)); [discriminate|].
  destruct (Nat.ltb_spec (len (strip raw)) 50); [auto|].
  cbn. discriminate.
Qed.

Lemma stored_name_bounds raw :
  classify U raw = NameLine -> 1 <= len (stored_name U raw) < 50.
Proof.
  intros H. split.
  - destruct (stored_name_head _ _ H) as (c & t & -> & _). cbn. lia.
  - unfold stored_name.
    pose proof (strip_length (Re.sub_price U (strip raw))) as H1.
    pose proof (sub_price_from_length false (strip raw)) as H2.
    pose proof (name_line_short _ H) as H3.
    unfold len, Re.sub_price in *. lia.
Qed.

(** X3. Every returned name has at least one and fewer than fifty
    characters. *)
Theorem name_length_bounds text :
  Forall (fun it => 1 <= len (name it) < 50) (parse_menu_items U text).
Proof.
  apply (names_forall (fun n => 1 <= len n < 50)), stored_name_bounds.
Qed.

Lemma sub_price_from_head s :
  forall inside,
    inside = true \/ Re.starts_with (Re.price_class U) s = false ->
    Re.starts_with (Re.price_class U) (Re.sub_price_from U inside s) = false.
Proof.
  induction s as [|c t IH]; intros inside H; cbn; [reflexivity|].
  destruct (inside && Re.price_class U c) eqn:E1; [apply IH; now left|].
  assert (Hc : Re.price_class U c = false).
  { destruct H as [->|H]; [exact E1 | exact H]. }
  destruct ((c =? Re.dollar)%N && Re.starts_with (Re.price_class U) t);
    [apply IH; now left | exact Hc].
Qed.

Lemma sub_price_from_no_token s :
  forall inside, has_price_token U (Re.sub_price_from U inside s) = false.
Proof.
  induction s as [|c t IH]; intros inside; cbn; [reflexivity|].
  destruct (inside && Re.price_class U c); [apply IH|].
  destruct ((c =? Re.dollar)%N && Re.starts_with (Re.price_class U) t) eqn:E;
    [apply IH|].
  cbn. rewrite IH, orb_false_r.
  destruct (c =? Re.dollar)%N; [|reflexivity]. cbn in *.
  apply sub_price_from_head. now right.
Qed.

Lemma starts_with_app cls a b :
  Re.starts_with cls a = true -> Re.starts_with cls (a ++ b) = true.
Proof. now destruct a. Qed.

Lemma has_price_token_app a b :
  has_price_token U (a ++ b) = false ->
  has_price_token U a = false /\ has_price_token U b = false.
Proof.
  induction a as [|c t IH]; cbn; intros H; [auto|].
  apply orb_false_elim in H. destruct H as (H1 & H2).
  destruct (IH H2) as (Ht & Hb). split; [|exact Hb].
  rewrite Ht, orb_false_r.
  destruct (c =? Re.dollar)%N; [|reflexivity]. cbn in *.
  destruct (Re.starts_with (Re.price_class U) t) eqn:E; [|reflexivity].
  now rewrite (starts_with_app _ _ b E) in H1.
Qed.

Lemma lstrip_suffix s : exists w, s = w ++ lstrip s.
Proof.
  induction s as [|c t (w & IH)]; cbn; [now exists []|].
  destruct (isspace c).
  - exists (c :: w). cbn. now rewrite <- IH.
  - now exists [].
Qed.

Lemma rstrip_prefix s : exists w, s = rstrip s ++ w.
Proof.
  unfold rstrip. destruct (lstrip_suffix (rev s)) as (w & H).
  exists (rev w). rewrite <- rev_app_distr, <- H. now rewrite rev_involutive.
Qed.

Lemma strip_no_token s :
  has_price_token U s = false -> has_price_token U (strip s) = false.
Proof.
  intros H. unfold strip.
  destruct (lstrip_suffix s) as (w & Hw). rewrite Hw in H.
  apply has_price_token_app in H. destruct H as (_ & H).
  destruct (rstrip_prefix (lstrip s)) as (v & Hv). rewrite Hv in H.
  now apply has_price_token_app in H.
Qed.

Lemma search_price_token s :
  has_price_token U s = false -> Re.search_price U s = false.
Proof.
  induction s as [|c t IH]; cbn; intros H; [reflexivity|].
  apply orb_false_elim in H. destruct H as (H1 & H2).
  rewrite (IH H2), orb_false_r.
  destruct (c =? Re.dollar)%N; [|reflexivity]. cbn in *.
  destruct t as [|d t']; [reflexivity|]. cbn in *.
  unfold Re.price_class in H1. now apply orb_false_elim in H1.
Qed.

(** X4. No returned name holds a price: no dollar sign in it is directly
    followed by a digit or a full stop, so the third pattern, and the
    inline-price pattern of the name test, find nothing in it. *)
Theorem name_without_price text :
  Forall (fun it => has_price_token U (name it) = false
                    /\ Re.search_price U (name it) = false
                    /\ Re.sub_price U (name it) = name it)
         (parse_menu_items U text).
Proof.
  apply (names_forall (fun n => has_price_token U n = false
                                /\ Re.search_price U n = false
                                /\ Re.sub_price U n = n)).
  intros raw _.
  assert (H : has_price_token U (stored_name U raw) = false).
  { apply strip_no_token, sub_price_from_no_token. }
  split; [exact H|]. split; [now apply search_price_token|].
  revert H. generalize (stored_name U raw). intros s.
  unfold Re.sub_price. induction s as [|c t IH]; cbn; intros H;
    [reflexivity|].
  apply orb_false_elim in H. destruct H as (H1 & H2).
  rewrite H1. now rewrite IH.
Qed.

End Shapes.

(** ** Descriptions, concatenation and line ends *)

Section Descriptions.

Variable U : UnicodeDB.

Lemma kept_loop_body st raw : kept st -> kept (loop_body U st raw).
Proof.
  intros (Hi & Hd & Hc).
  destruct (classify_cases U raw) as [E|[E|E]].
  - now rewrite (loop_body_skipped _ _ _ E).
  - rewrite (loop_body_name _ _ _ E). unfold kept, append_pending. cbn.
    rewrite (stored_name_truthy _ _ E).
    repeat split; [|now left|discriminate].
    destruct (truthy (current_item st)); [|exact Hi].
    apply Forall_app. split; [exact Hi|]. now constructor.
  - rewrite (loop_body_description _ _ _ E). unfold kept. cbn.
    repeat split; [exact Hi| |exact Hc].
    right. destruct Hd as [->|Hd]; [reflexivity|].
    now apply starts_with_app.
Qed.

Lemma kept_run_loop lines st : kept st -> kept (run_loop U lines st).
Proof.
  revert st. induction lines as [|raw rest IH]; intros st H; [exact H|].
  rewrite run_loop_cons. now apply IH, kept_loop_body.
Qed.

(** X5. The description of the last returned item is stripped.  The
    description of every item before it is as accumulated: empty, or
    starting with the space put before its first description line. *)
Theorem description_shapes text :
  let items := parse_menu_items U text in
  Forall (fun it => description it = []
                    \/ Re.starts_with (N.eqb SPACE) (description it) = true)
         (removelast items)
  /\ Forall (fun it => strip (description it) = description it)
            (skipn (List.length items - 1) items).
Proof.
  cbv zeta. unfold parse_menu_items.
  assert (H : kept (run_loop U (split_nl text) initial_state)).
  { apply kept_run_loop. unfold kept. cbn. repeat split; auto.
    now left. }
  destruct H as (Hi & _ & Hc).
  unfold finish, append_pending.
  destruct (truthy (current_item (run_loop U (split_nl text) initial_state))).
  - rewrite removelast_last. split; [exact Hi|].
    rewrite length_app. cbn [List.length].
    replace (_ + 1 - 1) with
      (List.length (menu_items (run_loop U (split_nl text) initial_state)) + 0)
      by lia.
    rewrite skipn_app, skipn_all2 by lia.
    replace (_ + 0 - _) with 0 by lia. cbn.
    constructor; [|constructor]. cbn. apply strip_idem.
  - rewrite (Hc eq_refl). cbn. split; constructor.
Qed.

(** X6. The names of a text made of two texts on separate lines are the
    names of the first followed by the names of the second; so are the
    numbers of items. *)
Theorem names_of_concatenation t1 t2 :
  map name (parse_menu_items U (t1 ++ LF :: t2))
  = map name (parse_menu_items U t1) ++ map name (parse_menu_items U t2)
  /\ List.length (parse_menu_items U (t1 ++ LF :: t2))
     = List.length (parse_menu_items U t1)
       + List.length (parse_menu_items U t2).
Proof.
  assert (H : map name (parse_menu_items U (t1 ++ LF :: t2))
              = map name (parse_menu_items U t1)
                ++ map name (parse_menu_items U t2)).
  { rewrite !names_parse. unfold LF.
    now rewrite split_nl_app, filter_app, map_app. }
  split; [exact H|].
  apply (f_equal (@List.length str)) in H.
  now rewrite length_app, !length_map in H.
Qed.

Lemma loop_body_same_stripped st x y :
  same_stripped x y -> loop_body U st x = loop_body U st y.
Proof. unfold same_stripped, loop_body. now intros ->. Qed.

Lemma run_loop_same_stripped xs ys :
  Forall2 same_stripped xs ys ->
  forall st, run_loop U xs st = run_loop U ys st.
Proof.
  induction 1 as [|x y xs ys H _ IH]; intros st; [reflexivity|].
  rewrite !run_loop_cons, (loop_body_same_stripped _ _ _ H). apply IH.
Qed.

(** X7. White space at the ends of lines has no influence: two texts with
    the same number of lines, the same line by line once stripped, give the
    same items. *)
Theorem line_padding_irrelevant t t' :
  Forall2 same_stripped (split_nl t) (split_nl t') ->
  parse_menu_items U t = parse_menu_items U t'.
Proof.
  intros H. unfold parse_menu_items.
  now rewrite (run_loop_same_stripped _ _ H).
Qed.

Lemma strip_snoc_space s c : isspace c = true -> strip (s ++ [c]) = strip s.
Proof.
  intros Hc. induction s as [|d t IH].
  - cbn. unfold strip. cbn. now rewrite Hc.
  - destruct (isspace d) eqn:Ed.
    + unfold strip in *. cbn. now rewrite Ed.
    + change ((d :: t) ++ [c]) with (d :: t ++ [c]).
      unfold strip. rewrite !(lstrip_nonspace _ _ Ed).
      unfold rstrip. f_equal.
      change (d :: t ++ [c]) with ((d :: t) ++ [c]).
      rewrite rev_app_distr. cbn [rev app]. cbn [lstrip]. now rewrite Hc.
Qed.

Lemma split_nl_crlf text :
  Forall2 (fun x y => x = y \/ x = y ++ [CR])
          (split_nl (crlf text)) (split_nl text).
Proof.
  induction text as [|c t IH].
  - cbn. constructor; [now left | constructor].
  - cbn [crlf flat_map]. fold (crlf t). unfold LF.
    destruct (N.eqb_spec c 10) as [->|Hc].
    + cbn. constructor; [now right | exact IH].
    + cbn [app split_nl].
      destruct (N.eqb_spec c 10) as [E|_]; [contradiction|].
      destruct IH as [|x y xs ys Hxy Hrest].
      * constructor; [now left | constructor].
      * constructor; [|exact Hrest].
        destruct Hxy as [->| ->]; [now left | now right].
Qed.

(** X8. Line ends written as carriage return and line feed give the same
    items as line feeds alone. *)
Theorem crlf_line_ends text :
  parse_menu_items U (crlf text) = parse_menu_items U text.
Proof.
  unfold parse_menu_items. rewrite (run_loop_same_stripped (split_nl (crlf text))
                                      (split_nl text)); [reflexivity|].
  eapply Forall2_impl; [|apply split_nl_crlf].
  intros x y [->| ->]; [reflexivity|].
  unfold same_stripped. now apply strip_snoc_space.
Qed.

End Descriptions.

(** ** More on the image requester *)

Lemma build_prompt_length dish desc :
  len (build_prompt dish desc)
  = 97 + len dish
    + (if truthy desc then 2 + Nat.min 100 (len desc) else 0).
Proof.
  unfold build_prompt, slice_to, len. cbv zeta.
  destruct (truthy desc); rewrite !length_app, ?length_firstn; cbn; lia.
Qed.

Section RequesterMore.

Variables world image bytes : Type.
Variable svc : services world image bytes.

Ltac run_requester :=
  unfold generate_food_image, try_except, bind, record_request, call,
    first_of, show, ret, raise; cbn [negb fst snd outside shown sent].

(** X9. The prompt is at most 199 characters longer than the dish name;
    its length is that of the fixed parts and the name, plus two and at
    most a hundred characters of a non-empty description. *)
Theorem prompt_length dish desc :
  len (build_prompt dish desc)
  = 97 + len dish
    + (if truthy desc then 2 + Nat.min 100 (len desc) else 0)
  /\ len (build_prompt dish desc) <= len dish + 199.
Proof.
  pose proof (build_prompt_length dish desc) as H.
  split; [exact H|]. rewrite H. destruct (truthy desc); lia.
Qed.

(** The three outcomes of a call with a client. *)
Lemma generate_food_image_outcome dish desc s :
  let req := image_request (build_prompt dish desc) in
  (exists url data w1 content w2 img w3,
     images_generate _ _ _ svc req (outside s) = (inr (url :: data), w1)
     /\ requests_get _ _ _ svc url w1 = (inr content, w2)
     /\ Image_open _ _ _ svc content w2 = (inr img, w3)
     /\ generate_food_image svc true dish desc s
        = (Return (Some img),
           {| outside := w3; shown := shown s; sent := sent s ++ [req] |}))
  \/ (exists e w,
        generate_food_image svc true dish desc s
        = (Return None,
           {| outside := w;
              shown := shown s ++ [st_error (error_message dish e)];
              sent := sent s ++ [req] |})).
Proof.
  cbv zeta. run_requester.
  destruct (images_generate _ _ _ svc _ (outside s))
    as [[e|[|url data]] w1] eqn:E1; cbn;
    [right; do 2 eexists; reflexivity
    |right; exists IndexError; eexists; reflexivity|].
  destruct (requests_get _ _ _ svc url w1) as [[e|content] w2] eqn:E2; cbn;
    [right; do 2 eexists; reflexivity|].
  destruct (Image_open _ _ _ svc content w2) as [[e|img] w3] eqn:E3; cbn;
    [right; do 2 eexists; reflexivity|].
  left. exists url, data, w1, content, w2, img, w3. auto.
Qed.


Lemma for_each_no_client total items :
  forall i s, exists s',
    for_each svc false total i items s = (Return tt, s')
    /\ outside s' = outside s /\ sent s' = sent s.
Proof.
  induction items as [|it rest IH]; intros i s; cbn [for_each].
  - exists s. now unfold ret.
  - unfold bind at 1. unfold bulk_step. run_requester.
    match goal with
    | |- context [for_each svc false total (i + 1) rest ?s0] =>
        destruct (IH (i + 1) s0) as (s' & -> & Ho & Hs)
    end.
    exists s'. cbn in *. auto.
Qed.

(** X11. Without a client nothing leaves the program: a call of
    [generate_food_image] shows the warning and gives [None], and a whole
    bulk run sends no request and leaves the outside as it was. *)
Theorem no_client_no_request :
  (forall dish desc s,
     generate_food_image svc false dish desc s
     = (Return None,
        {| outside := outside s;
           shown := shown s ++ [st_warning
                      (lit "Please enter your OpenAI API key in the sidebar")];
           sent := sent s |}))
  /\ (forall items s, exists s',
        generate_all svc false items s = (Return tt, s')
        /\ outside s' = outside s /\ sent s' = sent s).
Proof.
  split; [reflexivity|].
  intros items s. unfold generate_all, bind.
  destruct (for_each_no_client (List.length items) items 0 s)
    as (s1 & -> & Ho & Hs).
  unfold show. cbn. eauto.
Qed.

Lemma progress_log_app (a b : list (ui_event image)) :
  progress_log (a ++ b) = progress_log a ++ progress_log b.
Proof. apply flat_map_app. Qed.

Lemma slept_app (a b : list (ui_event image)) :
  slept (a ++ b) = slept a + slept b.
Proof. unfold slept. now rewrite map_app, list_sum_app. Qed.

Lemma results_app (a b : list (ui_event image)) :
  results (a ++ b) = results a + results b.
Proof. unfold results. now rewrite filter_app, length_app. Qed.

(** What one turn of the bulk loop shows when it returns: the spinner, an
    image or an error message, the progress and the pause. *)
Lemma turn_page (ev : ui_event image) total i dish :
  is_result ev = true ->
  let turn := [st_spinner image (i + 1) total dish; ev;
               st_progress image (i + 1) total; time_sleep image 1] in
  progress_log turn = [(i + 1, total)] /\ slept turn = 1 /\ results turn = 1.
Proof.
  cbv zeta. unfold progress_log, slept, results.
  destruct ev; cbn; intros H; try discriminate; auto.
Qed.

(** One turn of the bulk loop returns, or the decoding of its image ends
    it; the request has been sent in both cases. *)
Lemma bulk_step_cases total i it s :
  (exists s' ev,
     bulk_step svc true total i it s = (Return tt, s')
     /\ is_result ev = true
     /\ shown s' = shown s ++ [st_spinner image (i + 1) total (name it); ev;
                               st_progress image (i + 1) total;
                               time_sleep image 1]
     /\ sent s' = sent s ++ [request_of it])
  \/ (exists e s',
        bulk_step svc true total i it s = (Raise e, s')
        /\ raised_by_load svc e
        /\ shown s' = shown s ++ [st_spinner image (i + 1) total (name it)]
        /\ sent s' = sent s ++ [request_of it]).
Proof.
  destruct (generate_food_image_outcome (name it) (description it)
              {| outside := outside s;
                 shown := shown s ++ [st_spinner image (i + 1) total (name it)];
                 sent := sent s |})
    as [(url & data & w1 & content & w2 & img & w3 & _ & _ & _ & E)
       |(e & w & E)]; cbn [shown outside sent] in E.
  - destruct (Image_load _ _ _ svc img w3) as [[e|[]] w4] eqn:EL.
    + right. exists e. eexists. split.
      * unfold bulk_step, bind. unfold show at 1. rewrite E.
        unfold draw_image, bind, call. cbn [shown outside sent].
        rewrite EL. reflexivity.
      * split; [now exists img, w3, w4|]. cbn. auto.
    + left. eexists.
      exists (st_image image img (lit "Generated: " ++ name it) 300). split.
      * unfold bulk_step, bind. unfold show at 1. rewrite E.
        unfold draw_image, bind, call. cbn [shown outside sent].
        rewrite EL. reflexivity.
      * split; [reflexivity|]. cbn. now rewrite <- !app_assoc.
  - left. eexists. exists (st_error (error_message (name it) e)). split.
    + unfold bulk_step, bind. unfold show at 1. rewrite E. reflexivity.
    + split; [reflexivity|]. cbn. now rewrite <- !app_assoc.
Qed.

Lemma prefix_of_refl {A} (l : list A) : prefix_of l l.
Proof. exists []. now rewrite app_nil_r. Qed.

Lemma prefix_of_app_l {A} (a b c : list A) :
  prefix_of a b -> prefix_of a (b ++ c).
Proof. intros (d & ->). exists (d ++ c). now rewrite app_assoc. Qed.

Lemma prefix_of_app {A} (a b c : list A) :
  prefix_of b c -> prefix_of (a ++ b) (a ++ c).
Proof. intros (d & ->). exists d. now rewrite app_assoc. Qed.

Lemma prefix_of_nil {A} (l : list A) : prefix_of l [] -> l = [].
Proof. intros (c & H). symmetry in H. now apply app_eq_nil in H. Qed.

Lemma decodable_never_raised e :
  all_decodable svc -> raised_by_load svc e -> False.
Proof.
  intros H (img & w & w' & E). destruct (H img w) as (w'' & E').
  rewrite E in E'. discriminate.
Qed.

Ltac returned :=
  split; [reflexivity|]; cbn [shown sent outside];
  split; [first [reflexivity | rewrite app_nil_r; reflexivity]|];
  split; [first [reflexivity | rewrite app_nil_r; reflexivity]|];
  split; [apply prefix_of_refl|]; split; [reflexivity | discriminate].

Lemma runs_ret : runs svc (ret tt) [].
Proof. intros s. exists (Return tt), s, [], []. unfold ret. returned. Qed.

Lemma runs_show ev : runs svc (show ev) [].
Proof.
  intros s. eexists. eexists. exists [ev], []. unfold show. returned.
Qed.

Lemma runs_bind m1 m2 f1 f2 :
  runs svc m1 f1 -> runs svc m2 f2 ->
  runs svc (bind m1 (fun _ => m2)) (f1 ++ f2).
Proof.
  intros H1 H2 s. unfold bind.
  destruct (H1 s) as (r1 & s1 & ev1 & rq1 & -> & Sh1 & Se1 & P1 & R1 & X1).
  destruct r1 as [[]|e].
  - destruct (H2 s1) as (r2 & s2 & ev2 & rq2 & -> & Sh2 & Se2 & P2 & R2 & X2).
    rewrite (R1 eq_refl) in *.
    exists r2, s2, (ev1 ++ ev2), (f1 ++ rq2). split; [reflexivity|].
    split; [now rewrite Sh2, Sh1, app_assoc|].
    split; [now rewrite Se2, Se1, app_assoc|].
    split; [now apply prefix_of_app|].
    split; [intros E; now rewrite (R2 E) | exact X2].
  - exists (Raise e), s1, ev1, rq1. split; [reflexivity|].
    split; [exact Sh1|]. split; [exact Se1|].
    split; [now apply prefix_of_app_l|].
    split; [discriminate | exact X1].
Qed.

Lemma runs_draw_image img caption width :
  runs svc (draw_image svc img caption width) [].
Proof.
  intros s. unfold draw_image, bind, call, show.
  destruct (Image_load _ _ _ svc img (outside s)) as [[e|[]] w] eqn:EL.
  - eexists. eexists. exists [], []. split; [reflexivity|].
    cbn [shown sent outside]. rewrite !app_nil_r.
    split; [reflexivity|]. split; [reflexivity|].
    split; [apply prefix_of_refl|]. split; [discriminate|].
    intros e' [= <-]. now exists img, (outside s), w.
  - eexists. eexists. eexists. exists []. returned.
Qed.

Lemma runs_bulk_step total i it :
  runs svc (bulk_step svc true total i it) [request_of it].
Proof.
  intros s.
  destruct (bulk_step_cases total i it s)
    as [(s' & ev & -> & _ & Sh & Se)|(e & s' & -> & He & Sh & Se)].
  - eexists. eexists. eexists. eexists. split; [reflexivity|].
    split; [exact Sh|]. split; [exact Se|].
    split; [apply prefix_of_refl|]. split; [reflexivity | discriminate].
  - eexists. eexists. eexists. eexists. split; [reflexivity|].
    split; [exact Sh|]. split; [exact Se|].
    split; [apply prefix_of_refl|]. split; [discriminate|].
    now intros e' [= <-].
Qed.

Lemma runs_for_each total items :
  forall i, runs svc (for_each svc true total i items) (map request_of items).
Proof.
  induction items as [|it rest IH]; intros i; cbn [for_each map].
  - apply runs_ret.
  - apply (runs_bind _ _ [request_of it]); [apply runs_bulk_step | apply IH].
Qed.

Lemma runs_generate_all items :
  runs svc (generate_all svc true items) (map request_of items).
Proof.
  unfold generate_all. rewrite <- (app_nil_r (map request_of items)).
  apply runs_bind; [apply runs_for_each | apply runs_show].
Qed.

(** The page after a bulk loop that returned. *)
Lemma for_each_page total items :
  forall i s s',
    for_each svc true total i items s = (Return tt, s') ->
    exists evs,
      shown s' = shown s ++ evs
      /\ progress_log evs
         = map (fun k => (k, total)) (seq (i + 1) (List.length items))
      /\ slept evs = List.length items
      /\ results evs = List.length items.
Proof.
  induction items as [|it rest IH]; intros i s s'; cbn [for_each].
  - unfold ret. intros [= <-]. exists []. cbn. now rewrite app_nil_r.
  - unfold bind.
    destruct (bulk_step_cases total i it s)
      as [(s1 & ev & -> & Hev & E1 & _)|(e & s1 & -> & _)]; [|discriminate].
    intros H. destruct (IH (i + 1) s1 s' H) as (evs & E2 & Hp & Hs & Hr).
    destruct (turn_page ev total i (name it) Hev) as (Tp & Ts & Tr).
    eexists. split; [rewrite E2, E1, <- app_assoc; reflexivity|].
    rewrite progress_log_app, slept_app, results_app, Tp, Ts, Tr, Hp, Hs, Hr.
    cbn [List.length seq map app].
    replace (S (i + 1)) with (i + 1 + 1) by lia.
    repeat split; lia.
Qed.

(** X12. A bulk run with a client over [n] items that returns has set the
    progress bar to 1 of [n], 2 of [n], up to [n] of [n], in that order,
    slept [n] seconds in all, shown [n] results, each an image or an error
    message, then the success message, and sent the request of every item.
    It returns whenever every image can be decoded: the only exception
    that ends it is one raised by the decoding of an image. *)
Theorem bulk_run_page items s :
  let n := List.length items in
  (forall s',
     generate_all svc true items s = (Return tt, s') ->
     sent s' = sent s ++ map request_of items
     /\ exists evs,
          shown s' = shown s ++ evs ++ [st_success image
                                         (lit "All images generated!")]
          /\ progress_log evs = map (fun k => (k, n)) (seq 1 n)
          /\ slept evs = n
          /\ results evs = n)
  /\ (forall e s',
        generate_all svc true items s = (Raise e, s') ->
        raised_by_load svc e)
  /\ (all_decodable svc ->
      exists s', generate_all svc true items s = (Return tt, s')).
Proof.
  cbv zeta.
  destruct (runs_generate_all items s)
    as (r & s1 & evs & reqs & E & Sh & Se & _ & R & X).
  split; [|split].
  - intros s' H. split.
    + rewrite H in E. injection E as <- <-. now rewrite Se, (R eq_refl).
    + revert H. unfold generate_all, bind.
      destruct (for_each svc true (List.length items) 0 items s)
        as [[[]|e] s2] eqn:F; [|discriminate].
      unfold show. intros [= <-].
      destruct (for_each_page _ _ _ _ _ F) as (ev2 & E2 & Hp & Hs & Hr).
      exists ev2. cbn. rewrite E2, <- app_assoc. auto.
  - intros e s' H. rewrite H in E. injection E as <- <-. now apply X.
  - intros Hd. destruct r as [[]|e]; [eauto|].
    destruct (decodable_never_raised e Hd (X e eq_refl)).
Qed.

Section ServiceAlwaysFails.

Hypothesis always_fails :
  forall req w, exists e w', images_generate _ _ _ svc req w = (inl e, w').

Lemma bulk_step_all_fail total i it s :
  exists s' evs,
    bulk_step svc true total i it s = (Return tt, s')
    /\ shown s' = shown s ++ evs
    /\ existsb is_image evs = false.
Proof.
  unfold bulk_step, bind. unfold show at 1. run_requester.
  match goal with
  | |- context [images_generate _ _ _ svc ?r ?w] =>
      destruct (always_fails r w) as (e & w' & ->)
  end.
  cbn. eexists. eexists. split; [reflexivity|].
  split; [rewrite <- !app_assoc; reflexivity | reflexivity].
Qed.

Lemma for_each_all_fail total items :
  forall i s, exists s' evs,
    for_each svc true total i items s = (Return tt, s')
    /\ shown s' = shown s ++ evs
    /\ existsb is_image evs = false.
Proof.
  induction items as [|it rest IH]; intros i s; cbn [for_each].
  - exists s, []. unfold ret. cbn. now rewrite app_nil_r.
  - unfold bind.
    destruct (bulk_step_all_fail total i it s) as (s1 & ev1 & -> & E1 & H1).
    destruct (IH (i + 1) s1) as (s2 & ev2 & -> & E2 & H2).
    exists s2, (ev1 ++ ev2). split; [reflexivity|].
    split; [now rewrite E2, E1, <- app_assoc|].
    now rewrite existsb_app, H1, H2.
Qed.

(** X13. The success message of a bulk run does not mean success: when the
    image service refuses every request, the run shows no image and still
    ends with "All images generated!". *)
Theorem bulk_run_all_fail items s :
  exists s' evs,
    generate_all svc true items s = (Return tt, s')
    /\ shown s' = shown s ++ evs ++ [st_success image
                                       (lit "All images generated!")]
    /\ existsb is_image evs = false.
Proof.
  unfold generate_all, bind.
  destruct (for_each_all_fail (List.length items) items 0 s)
    as (s1 & evs & -> & E & H).
  unfold show. cbn. eexists. exists evs.
  split; [reflexivity|]. cbn. rewrite E, <- app_assoc. auto.
Qed.

End ServiceAlwaysFails.

End RequesterMore.

(** ** From the menu text to the prompts *)

(** X14. Whatever the menu text, the prompt made for a returned item has
    at most 248 characters. *)
Theorem prompt_of_item_bounded U text :
  Forall (fun it => len (build_prompt (name it) (description it)) <= 248)
         (parse_menu_items U text).
Proof.
  assert (H : Forall (fun it => 1 <= len (name it) < 50)
                     (parse_menu_items U text)).
  { apply (names_forall U (fun n => 1 <= len n < 50)), stored_name_bounds. }
  eapply Forall_impl; [|exact H]. cbn. intros it Hit.
  rewrite build_prompt_length. destruct (truthy (description it)); lia.
Qed.

(** ** The rest of the page *)

(** X15. A description is written between two asterisks, whole when it has
    at most 200 characters; a longer one is cut after its first 200
    characters and followed by three full stops.  What is written never has
    more than 205 characters. *)
Theorem description_markup_bounded d :
  len (description_markup d) <= 205
  /\ (len d <= 200 -> description_markup d = lit "*" ++ d ++ lit "*")
  /\ (200 < len d ->
      description_markup d = lit "*" ++ firstn 200 d ++ lit "...*"
      /\ len (firstn 200 d) = 200
      /\ d = firstn 200 d ++ skipn 200 d).
Proof.
  unfold description_markup, slice_to, len.
  destruct (Nat.ltb_spec 200 (List.length d)) as [H|H].
  - split; [|split].
    + rewrite !length_app, length_firstn.
      change (List.length (lit "*")) with 1.
      change (List.length (lit "...*")) with 4. lia.
    + lia.
    + intros _. split; [reflexivity|]. split.
      * rewrite length_firstn. lia.
      * now rewrite firstn_skipn.
  - split; [|split].
    + rewrite !length_app. change (List.length (lit "*")) with 1. lia.
    + reflexivity.
    + lia.
Qed.

(** X16. The start-up code takes the first candidate path that exists and
    looks no further; when none exists the command is left as it was. *)
Theorem tesseract_first_existing path_exists cmd :
  (forall paths,
     Forall (fun p => path_exists p = false) paths ->
     configure_tesseract path_exists paths cmd = cmd)
  /\ (forall before path after,
        Forall (fun p => path_exists p = false) before ->
        path_exists path = true ->
        configure_tesseract path_exists (before ++ path :: after) cmd = path)
  /\ (In (configure_tesseract path_exists possible_paths cmd)
         (cmd :: possible_paths)).
Proof.
  split; [|split].
  - induction 1 as [|p rest Hp _ IH]; cbn; [reflexivity|]. now rewrite Hp.
  - intros before path after Hb Hp.
    induction Hb as [|p rest Hq _ IH]; cbn; [now rewrite Hp|].
    now rewrite Hq.
  - unfold possible_paths. cbn [configure_tesseract].
    repeat match goal with
           | |- context [path_exists ?p] => destruct (path_exists p)
           end; cbn; auto.
Qed.

(** ** The page *)

Section PageFacts.

Variables world image bytes upload : Type.
Variable svc : services world image bytes.
Variable open_upload : upload -> world -> (exn + image) * world.
Variable image_to_string : image -> world -> (exn + str) * world.
Variable clicked : str -> option str -> bool.
Variable U : UnicodeDB.

Ltac run_page :=
  unfold pg_bind, pg_try, pg_show, pg_call, pg_ret;
  cbn [pg_outside pg_shown pg_sent fst snd].

(** X17. [extract_text_from_image] never raises.  It gives the text of the
    OCR engine and shows nothing; when the engine raises, it gives the
    empty string after two error messages, the first with the text of the
    exception, and the installation help. *)
Theorem extract_text_never_raises img ps :
  (forall text w,
     image_to_string img (pg_outside ps) = (inr text, w) ->
     extract_text_from_image image_to_string img ps
     = (Return text,
        {| pg_outside := w; pg_shown := pg_shown ps; pg_sent := pg_sent ps |}))
  /\ (forall e w,
        image_to_string img (pg_outside ps) = (inl e, w) ->
        extract_text_from_image image_to_string img ps
        = (Return [],
           {| pg_outside := w;
              pg_shown := pg_shown ps ++
                [pg_widget (st_error (lit "Error extracting text: "
                                      ++ exn_str e));
                 pg_widget (st_error (lit
                   "Tesseract OCR not found. Please install Tesseract or use Google Cloud Vision API instead."));
                 pg_markdown image tesseract_help];
              pg_sent := pg_sent ps |}))
  /\ exists text ps',
       extract_text_from_image image_to_string img ps = (Return text, ps')
       /\ pg_sent ps' = pg_sent ps.
Proof.
  unfold extract_text_from_image. run_page.
  split; [|split].
  - intros text w ->. reflexivity.
  - intros e w ->. cbn. now rewrite <- !app_assoc.
  - destruct (image_to_string img (pg_outside ps)) as [[e|text] w];
      cbn; eauto.
Qed.

Ltac page_returned :=
  split; [reflexivity|]; cbn [pg_shown pg_sent pg_outside];
  split; [first [reflexivity | rewrite app_nil_r; reflexivity]|];
  split; [first [reflexivity | rewrite app_nil_r; reflexivity]|];
  split; [apply prefix_of_refl|]; split; [reflexivity | discriminate].

Lemma sends_ret : sends svc (pg_ret tt) [].
Proof.
  intros ps. exists (Return tt), ps, [], []. unfold pg_ret. page_returned.
Qed.

Lemma sends_show ev : sends svc (pg_show ev) [].
Proof.
  intros ps. eexists. eexists. exists [ev], []. unfold pg_show.
  page_returned.
Qed.

Lemma sends_bind m1 m2 f1 f2 :
  sends svc m1 f1 -> sends svc m2 f2 ->
  sends svc (pg_bind m1 (fun _ => m2)) (f1 ++ f2).
Proof.
  intros H1 H2 ps. unfold pg_bind.
  destruct (H1 ps) as (r1 & ps1 & ev1 & rq1 & -> & Sh1 & Se1 & P1 & R1 & X1).
  destruct r1 as [[]|e].
  - destruct (H2 ps1)
      as (r2 & ps2 & ev2 & rq2 & -> & Sh2 & Se2 & P2 & R2 & X2).
    rewrite (R1 eq_refl) in *.
    exists r2, ps2, (ev1 ++ ev2), (f1 ++ rq2). split; [reflexivity|].
    split; [now rewrite Sh2, Sh1, app_assoc|].
    split; [now rewrite Se2, Se1, app_assoc|].
    split; [now apply prefix_of_app|].
    split; [intros E; now rewrite (R2 E) | exact X2].
  - exists (Raise e), ps1, ev1, rq1. split; [reflexivity|].
    split; [exact Sh1|]. split; [exact Se1|].
    split; [now apply prefix_of_app_l|].
    split; [discriminate | exact X1].
Qed.

Lemma sends_eq m f f' : sends svc m f -> f = f' -> sends svc m f'.
Proof. now intros H <-. Qed.

Lemma sends_lift m f : runs svc m f -> sends svc (pg_lift m) f.
Proof.
  intros H ps. unfold pg_lift.
  destruct (H {| outside := pg_outside ps; shown := []; sent := pg_sent ps |})
    as (r & s' & evs & reqs & -> & Sh & Se & Pf & R & X).
  cbn [shown sent] in Sh, Se.
  exists r. eexists. exists (map pg_widget evs), reqs.
  split; [reflexivity|]. cbn [pg_shown pg_sent].
  split; [now rewrite Sh|]. split; [exact Se|]. auto.
Qed.

(** The call of [generate_food_image] for a clicked item and the drawing
    of what it returns. *)
Lemma sends_generate_and_draw dish desc caption :
  sends svc
    (pg_bind (pg_lift (generate_food_image svc true dish desc))
       (fun generated_image =>
          match generated_image with
          | Some img => pg_lift (draw_image svc img caption 300)
          | None => pg_ret tt
          end))
    [image_request (build_prompt dish desc)].
Proof.
  intros ps. unfold pg_bind. unfold pg_lift at 1.
  destruct (generate_food_image_outcome _ _ _ svc dish desc
              {| outside := pg_outside ps; shown := []; sent := pg_sent ps |})
    as [(url & data & w1 & content & w2 & img & w3 & _ & _ & _ & ->)
       |(e & w & ->)]; cbn [shown outside sent app map].
  - destruct (sends_lift _ _ (runs_draw_image _ _ _ svc img caption 300)
                {| pg_outside := w3; pg_shown := pg_shown ps ++ [];
                   pg_sent := pg_sent ps
                              ++ [image_request (build_prompt dish desc)] |})
      as (r & ps' & evs & reqs & -> & Sh & Se & Pf & _ & X).
    cbn [pg_shown pg_sent] in Sh, Se. apply prefix_of_nil in Pf. subst reqs.
    rewrite app_nil_r in Sh, Se.
    exists r, ps', evs, [image_request (build_prompt dish desc)].
    split; [reflexivity|]. split; [exact Sh|]. split; [exact Se|].
    split; [apply prefix_of_refl|]. split; [reflexivity | exact X].
  - unfold pg_ret. eexists. eexists. eexists.
    exists [image_request (build_prompt dish desc)].
    split; [reflexivity|]. cbn [pg_shown pg_sent].
    split; [reflexivity|]. split; [reflexivity|].
    split; [apply prefix_of_refl|]. split; [reflexivity | discriminate].
Qed.

Ltac sends_steps :=
  repeat first [ apply sends_show | apply sends_ret
               | apply sends_generate_and_draw | eapply sends_bind ].

Lemma sends_item_row client i it :
  sends svc (item_row svc clicked client i it)
    (if client && clicked (row_label it) (row_key i)
     then [request_of it] else []).
Proof.
  unfold item_row. cbv zeta. fold (row_label it) (row_key i).
  destruct (clicked (row_label it) (row_key i)), client,
    (truthy (description it));
    (eapply sends_eq; [sends_steps | reflexivity]).
Qed.

Lemma sends_item_rows client items :
  forall i,
    sends svc (item_rows svc clicked client i items)
      (if client then map request_of (clicked_rows clicked i items) else []).
Proof.
  induction items as [|it rest IH]; intros i; cbn [item_rows clicked_rows].
  - eapply sends_eq; [apply sends_ret | now destruct client].
  - eapply sends_eq; [eapply sends_bind; [apply sends_item_row | apply IH]|].
    destruct client; [|reflexivity]. cbn [andb]. rewrite map_app.
    now destruct (clicked (row_label it) (row_key i)).
Qed.

Lemma sends_bulk_section client items :
  sends svc (bulk_section svc clicked client items)
    (if client && clicked (lit "Generate All Images") None
     then map request_of items else []).
Proof.
  unfold bulk_section.
  destruct client; cbn [andb]; [|apply sends_ret].
  destruct (clicked (lit "Generate All Images") None).
  - eapply sends_eq.
    + eapply sends_bind; [apply sends_show|].
      eapply sends_bind; [apply sends_show|].
      eapply sends_bind; [apply sends_show|].
      apply sends_lift, runs_generate_all.
    + reflexivity.
  - eapply sends_eq; [sends_steps | reflexivity].
Qed.

(** The items and the bulk section, one after the other. *)
Lemma sends_items_and_bulk client items :
  sends svc
    (pg_bind (item_rows svc clicked client 0 items)
       (fun _ => bulk_section svc clicked client items))
    (if client then page_requests clicked items else []).
Proof.
  eapply sends_eq.
  - eapply sends_bind; [apply sends_item_rows | apply sends_bulk_section].
  - unfold page_requests. destruct client; reflexivity.
Qed.

(** A run that finds items reaches the list of the items with the text
    and the number of items on the page, and nothing sent. *)
Lemma main_reaches_items client file img w1 w1' text w2 ps :
  open_upload file (pg_outside ps) = (inr img, w1) ->
  Image_load _ _ _ svc img w1 = (inr tt, w1') ->
  image_to_string img w1' = (inr text, w2) ->
  parse_menu_items U text <> [] ->
  exists ps0,
    main_app_logic svc open_upload image_to_string clicked client U
      (Some file) ps
    = pg_bind (item_rows svc clicked client 0 (parse_menu_items U text))
        (fun _ => bulk_section svc clicked client (parse_menu_items U text))
        ps0
    /\ pg_outside ps0 = w2
    /\ pg_shown ps0 = pg_shown ps ++ page_head img ++ text_head text
         ++ [found_header (List.length (parse_menu_items U text))]
    /\ pg_sent ps0 = pg_sent ps.
Proof.
  intros Ho Hl Ht Hi. unfold main_app_logic, extract_text_from_image.
  run_page. rewrite Ho. cbn [pg_outside pg_shown pg_sent]. rewrite Hl.
  cbn [pg_outside pg_shown pg_sent]. rewrite Ht.
  assert (Htext : truthy text = true).
  { destruct text; [|reflexivity]. now destruct Hi. }
  rewrite Htext. cbv zeta.
  destruct (parse_menu_items U text) as [|it rest] eqn:E; [now destruct Hi|].
  cbn [pg_outside pg_shown pg_sent].
  eexists. split; [reflexivity|]. cbn [pg_outside pg_shown pg_sent].
  unfold page_head, text_head, found_header.
  rewrite <- !app_assoc. auto.
Qed.

Lemma no_name_line_no_item text :
  filter (is_name_line U) (split_nl text) = [] ->
  parse_menu_items U text = [].
Proof.
  intros H. pose proof (names_parse U text) as E. rewrite H in E.
  now apply map_eq_nil in E.
Qed.

Lemma clicked_rows_none items :
  (forall label key, clicked label key = false) ->
  forall i, clicked_rows clicked i items = [].
Proof.
  intros H. induction items as [|it rest IH]; intros i; cbn; [reflexivity|].
  now rewrite H, IH.
Qed.

(** Every run of the main logic: what it sends, and what can end it. *)
Lemma main_summary client file ps :
  exists r ps' reqs,
    main_app_logic svc open_upload image_to_string clicked client U
      (Some file) ps = (r, ps')
    /\ pg_sent ps' = pg_sent ps ++ reqs
    /\ (client = false -> reqs = [])
    /\ ((forall label key, clicked label key = false) -> reqs = [])
    /\ (forall e, r = Raise e ->
          (exists w, open_upload file (pg_outside ps) = (inl e, w))
          \/ raised_by_load svc e).
Proof.
  destruct (open_upload file (pg_outside ps)) as [[e|img] w1] eqn:Ho.
  - exists (Raise e). eexists. exists [].
    split; [unfold main_app_logic; run_page; now rewrite Ho|].
    cbn [pg_sent]. rewrite app_nil_r. repeat split; auto.
    intros e' [= <-]. left. now exists w1.
  - destruct (Image_load _ _ _ svc img w1) as [[e|[]] w1'] eqn:Hl.
    + exists (Raise e). eexists. exists [].
      split; [unfold main_app_logic; run_page; rewrite Ho;
              cbn [pg_outside pg_shown pg_sent]; now rewrite Hl|].
      cbn [pg_sent]. rewrite app_nil_r. repeat split; auto.
      intros e' [= <-]. right. now exists img, w1, w1'.
    + destruct (image_to_string img w1') as [[e|text] w2] eqn:Ht.
      * exists (Return tt). eexists. exists [].
        split; [unfold main_app_logic, extract_text_from_image; run_page;
                rewrite Ho; cbn [pg_outside pg_shown pg_sent]; rewrite Hl;
                cbn [pg_outside pg_shown pg_sent]; now rewrite Ht|].
        cbn [pg_sent]. rewrite app_nil_r. repeat split; auto. discriminate.
      * destruct (parse_menu_items U text) as [|it rest] eqn:E.
        -- destruct (truthy text) eqn:Tt;
             (exists (Return tt); eexists; exists [];
              split; [unfold main_app_logic, extract_text_from_image;
                      run_page; rewrite Ho;
                      cbn [pg_outside pg_shown pg_sent]; rewrite Hl;
                      cbn [pg_outside pg_shown pg_sent]; rewrite Ht;
                      cbv zeta; rewrite E, Tt; reflexivity|];
              cbn [pg_sent]; rewrite app_nil_r;
              repeat split; auto; discriminate).
        -- assert (Hi : parse_menu_items U text <> []) by now rewrite E.
           destruct (main_reaches_items client file img w1 w1' text w2 ps
                       Ho Hl Ht Hi) as (ps0 & -> & _ & _ & Se0).
           destruct (sends_items_and_bulk client (parse_menu_items U text) ps0)
             as (r & ps' & evs & reqs & -> & _ & Se & Pf & _ & X).
           exists r, ps', reqs. split; [reflexivity|].
           split; [now rewrite Se, Se0|].
           split; [intros ->; now apply prefix_of_nil in Pf|].
           split; [|intros e He; right; now apply X].
           intros Hc. unfold page_requests in Pf.
           rewrite (clicked_rows_none _ Hc), Hc in Pf.
           destruct client; now apply prefix_of_nil in Pf.
Qed.

(** X18. Two calls of the main logic are outside every [try]: the opening
    of the upload and [st.image].  When the upload cannot be opened, the
    exception leaves the script with nothing shown and nothing sent; when
    the uploaded image opens but cannot be decoded, it leaves after the
    first heading.  No other exception leaves: not those of the OCR engine,
    of the image service or of the download.  Once the upload is open and
    every image can be decoded, the run ends normally. *)
Theorem unguarded_calls_of_the_page client file ps :
  (forall e w,
     open_upload file (pg_outside ps) = (inl e, w) ->
     main_app_logic svc open_upload image_to_string clicked client U
       (Some file) ps
     = (Raise e, {| pg_outside := w; pg_shown := pg_shown ps;
                    pg_sent := pg_sent ps |}))
  /\ (forall img w1 e w2,
        open_upload file (pg_outside ps) = (inr img, w1) ->
        Image_load _ _ _ svc img w1 = (inl e, w2) ->
        main_app_logic svc open_upload image_to_string clicked client U
          (Some file) ps
        = (Raise e,
           {| pg_outside := w2;
              pg_shown := pg_shown ps ++
                [pg_columns image 2;
                 pg_subheader image ([128196%N] ++ lit " Uploaded Menu")];
              pg_sent := pg_sent ps |}))
  /\ (forall e ps',
        main_app_logic svc open_upload image_to_string clicked client U
          (Some file) ps = (Raise e, ps') ->
        (exists w, open_upload file (pg_outside ps) = (inl e, w))
        \/ raised_by_load svc e)
  /\ (forall img w1,
        open_upload file (pg_outside ps) = (inr img, w1) ->
        all_decodable svc ->
        exists ps',
          main_app_logic svc open_upload image_to_string clicked client U
            (Some file) ps = (Return tt, ps')).
Proof.
  destruct (main_summary client file ps)
    as (r & ps1 & reqs & E & _ & _ & _ & X).
  split; [|split; [|split]].
  - intros e w H. unfold main_app_logic. run_page. now rewrite H.
  - intros img w1 e w2 Ho Hl. unfold main_app_logic. run_page.
    rewrite Ho. cbn [pg_outside pg_shown pg_sent]. rewrite Hl.
    cbn [pg_outside pg_shown pg_sent]. now rewrite <- !app_assoc.
  - intros e ps' H. rewrite H in E. injection E as <- <-. now apply X.
  - intros img w1 Ho Hd. destruct r as [[]|e]; [eauto|].
    destruct (X e eq_refl) as [(w & H)|H].
    + rewrite Ho in H. discriminate.
    + destruct (decodable_never_raised _ _ _ svc e Hd H).
Qed.

(** X19. When the upload has been shown and the OCR engine raises, or
    gives an empty text, the page ends with the message that no text could
    be extracted; nothing is parsed and nothing is sent. *)
Theorem no_text_no_request client file img w1 w1' w2 ps :
  open_upload file (pg_outside ps) = (inr img, w1) ->
  Image_load _ _ _ svc img w1 = (inr tt, w1') ->
  (forall e,
     image_to_string img w1' = (inl e, w2) ->
     main_app_logic svc open_upload image_to_string clicked client U
       (Some file) ps
     = (Return tt,
        {| pg_outside := w2;
           pg_shown := pg_shown ps ++ page_head img ++
             [pg_widget (st_error (lit "Error extracting text: "
                                   ++ exn_str e));
              pg_widget (st_error (lit
                "Tesseract OCR not found. Please install Tesseract or use Google Cloud Vision API instead."));
              pg_markdown image tesseract_help;
              no_text_error];
           pg_sent := pg_sent ps |}))
  /\ (image_to_string img w1' = (inr [], w2) ->
      main_app_logic svc open_upload image_to_string clicked client U
       (Some file) ps
      = (Return tt,
         {| pg_outside := w2;
            pg_shown := pg_shown ps ++ page_head img ++ [no_text_error];
            pg_sent := pg_sent ps |})).
Proof.
  intros Ho Hl. split; [intros e Ht | intros Ht];
    unfold main_app_logic, extract_text_from_image; run_page;
    rewrite Ho; cbn [pg_outside pg_shown pg_sent]; rewrite Hl;
    cbn [pg_outside pg_shown pg_sent]; rewrite Ht; cbn;
    unfold page_head, no_text_error; now rewrite <- !app_assoc.
Qed.

(** X20. When the upload has been shown and the text has no name line, the
    page shows the text and ends with the warning that no menu items could
    be identified; nothing is sent. *)
Theorem no_name_line_warning client file img w1 w1' text w2 ps :
  open_upload file (pg_outside ps) = (inr img, w1) ->
  Image_load _ _ _ svc img w1 = (inr tt, w1') ->
  image_to_string img w1' = (inr text, w2) ->
  text <> [] ->
  filter (is_name_line U) (split_nl text) = [] ->
  main_app_logic svc open_upload image_to_string clicked client U
       (Some file) ps
  = (Return tt,
     {| pg_outside := w2;
        pg_shown := pg_shown ps ++ page_head img ++ text_head text
                    ++ [no_items_warning];
        pg_sent := pg_sent ps |}).
Proof.
  intros Ho Hl Ht Hne Hn. apply no_name_line_no_item in Hn.
  unfold main_app_logic, extract_text_from_image. run_page.
  rewrite Ho. cbn [pg_outside pg_shown pg_sent]. rewrite Hl.
  cbn [pg_outside pg_shown pg_sent]. rewrite Ht.
  cbv zeta. rewrite Hn. destruct text; [congruence|]. cbn.
  unfold page_head, text_head, no_items_warning. now rewrite <- !app_assoc.
Qed.

(** X21. With a client, the requests of a run of the page are a prefix of
    this list: the requests of the items whose button is clicked, in the
    order of the items, then those of all items when the bulk button is
    clicked.  They are the whole list when the run returns, which it does
    when every image can be decoded. *)
Theorem requests_follow_clicks file img w1 w1' text w2 ps :
  open_upload file (pg_outside ps) = (inr img, w1) ->
  Image_load _ _ _ svc img w1 = (inr tt, w1') ->
  image_to_string img w1' = (inr text, w2) ->
  let items := parse_menu_items U text in
  let run := main_app_logic svc open_upload image_to_string clicked true U
               (Some file) ps in
  let all :=
    map request_of (clicked_rows clicked 0 items)
    ++ (if clicked (lit "Generate All Images") None
        then map request_of items else []) in
  exists reqs,
    pg_sent (snd run) = pg_sent ps ++ reqs
    /\ prefix_of reqs all
    /\ (fst run = Return tt -> reqs = all)
    /\ (all_decodable svc -> reqs = all).
Proof.
  intros Ho Hl Ht. cbv zeta.
  destruct (parse_menu_items U text) as [|it rest] eqn:E.
  - exists []. unfold main_app_logic, extract_text_from_image. run_page.
    rewrite Ho. cbn [pg_outside pg_shown pg_sent]. rewrite Hl.
    cbn [pg_outside pg_shown pg_sent]. rewrite Ht.
    cbv zeta. rewrite E.
    destruct (truthy text); cbn; destruct (clicked _ None);
      rewrite app_nil_r; auto using prefix_of_refl.
  - assert (Hi : parse_menu_items U text <> []) by now rewrite E.
    destruct (main_reaches_items true file img w1 w1' text w2 ps
                Ho Hl Ht Hi) as (ps0 & -> & _ & _ & Se0).
    destruct (sends_items_and_bulk true (parse_menu_items U text) ps0)
      as (r & ps' & evs & reqs & -> & _ & Se & Pf & R & X).
    rewrite E in *. unfold page_requests in *. cbn [fst snd].
    exists reqs. split; [now rewrite Se, Se0|]. split; [exact Pf|].
    split; [exact R|]. intros Hd.
    destruct r as [[]|e]; [now apply R|].
    destruct (decodable_never_raised _ _ _ svc e Hd (X e eq_refl)).
Qed.

(** X22. Without a client, or when no button is clicked, a run of the page
    sends no request, whatever the upload and the text are. *)
Theorem no_click_no_request client file ps :
  client = false \/ (forall label key, clicked label key = false) ->
  pg_sent (snd (main_app_logic svc open_upload image_to_string clicked client U (Some file) ps)) = pg_sent ps.
Proof.
  intros H.
  destruct (main_summary client file ps)
    as (r & ps' & reqs & -> & Se & Hc & Hk & _).
  cbn [snd]. rewrite Se.
  destruct H as [H|H]; [rewrite (Hc H) | rewrite (Hk H)];
    now rewrite app_nil_r.
Qed.

(** X23. When the upload has been shown and the text has name lines, the
    heading of the list gives their number. *)
Theorem found_header_counts_name_lines client file img w1 w1' text w2 ps :
  open_upload file (pg_outside ps) = (inr img, w1) ->
  Image_load _ _ _ svc img w1 = (inr tt, w1') ->
  image_to_string img w1' = (inr text, w2) ->
  filter (is_name_line U) (split_nl text) <> [] ->
  exists evs,
    pg_shown (snd (main_app_logic svc open_upload image_to_string clicked client U (Some file) ps))
    = pg_shown ps ++ page_head img ++ text_head text
      ++ [found_header
            (List.length (filter (is_name_line U) (split_nl text)))]
      ++ evs.
Proof.
  intros Ho Hl Ht Hn.
  assert (Hlen : List.length (parse_menu_items U text)
                 = List.length (filter (is_name_line U) (split_nl text))).
  { rewrite <- (length_map name), names_parse. apply length_map. }
  assert (Hi : parse_menu_items U text <> []).
  { intros E. rewrite E in Hlen. cbn in Hlen.
    destruct (filter (is_name_line U) (split_nl text)); [congruence|].
    discriminate. }
  destruct (main_reaches_items client file img w1 w1' text w2 ps
              Ho Hl Ht Hi) as (ps0 & -> & _ & Sh0 & _).
  destruct (sends_items_and_bulk client (parse_menu_items U text) ps0)
    as (r & ps' & evs & reqs & -> & Sh & _).
  exists evs. cbn [snd]. rewrite Sh, Sh0, Hlen, <- !app_assoc. reflexivity.
Qed.

End PageFacts.

(** ** The further theorems at sample inputs *)

Lemma superseded_block_witness :
  ~ In LF (lit "CAESAR SALAD")
  /\ is_name_line ascii_db (lit "CAESAR SALAD") = true
  /\ is_name_line ascii_db (hd [] (split_nl (lit "BEEF BURGER $15"))) = true
  /\ parse_menu_items ascii_db
       (lit "CAESAR SALAD" ++ LF :: lit "BEEF BURGER $15")
     = {| name := stored_name ascii_db (lit "CAESAR SALAD");
          description := [] |}
       :: parse_menu_items ascii_db (lit "BEEF BURGER $15").
Proof.
  assert (H1 : ~ In LF (lit "CAESAR SALAD")).
  { cbv. intuition discriminate. }
  assert (H2 : is_name_line ascii_db (lit "CAESAR SALAD") = true)
    by reflexivity.
  assert (H3 : is_name_line ascii_db
                 (hd [] (split_nl (lit "BEEF BURGER $15"))) = true)
    by reflexivity.
  split; [exact H1|]. split; [exact H2|]. split; [exact H3|].
  exact (proj1 (superseded_block ascii_db _ _ H1 H2 H3)).
Defined.

Lemma last_block_witness :
  ~ In LF (lit "BEEF BURGER $15")
  /\ is_name_line ascii_db (lit "BEEF BURGER $15") = true
  /\ Forall (fun raw => is_name_line ascii_db raw = false)
            (split_nl (lit "Served with fries"))
  /\ parse_menu_items ascii_db
       (lit "BEEF BURGER $15" ++ LF :: lit "Served with fries")
     = [{| name := stored_name ascii_db (lit "BEEF BURGER $15");
           description :=
             strip (joined ascii_db (split_nl (lit "Served with fries"))) |}].
Proof.
  assert (H1 : ~ In LF (lit "BEEF BURGER $15")).
  { cbv. intuition discriminate. }
  assert (H2 : is_name_line ascii_db (lit "BEEF BURGER $15") = true)
    by reflexivity.
  assert (H3 : Forall (fun raw => is_name_line ascii_db raw = false)
                      (split_nl (lit "Served with fries"))).
  { apply Forall_cons; [reflexivity | apply Forall_nil]. }
  split; [exact H1|]. split; [exact H2|]. split; [exact H3|].
  exact (last_block ascii_db _ _ H1 H2 H3).
Defined.

Lemma line_padding_irrelevant_witness :
  Forall2 same_stripped (split_nl (lit "  PIZZA "))  (split_nl (lit "PIZZA"))
  /\ parse_menu_items ascii_db (lit "  PIZZA ")
     = parse_menu_items ascii_db (lit "PIZZA").
Proof.
  assert (H : Forall2 same_stripped (split_nl (lit "  PIZZA "))
                      (split_nl (lit "PIZZA"))).
  { apply Forall2_cons; [reflexivity | apply Forall2_nil]. }
  split; [exact H|].
  exact (line_padding_irrelevant ascii_db _ _ H).
Defined.


Lemma bulk_run_all_fail_witness :
  (forall req w, exists e w',
     images_generate _ _ _ service_down req w = (inl e, w'))
  /\ exists s' evs,
       generate_all service_down true [item "PIZZA" ""; item "PASTA" ""]
         fresh_session = (Return tt, s')
       /\ shown s' = shown fresh_session ++ evs
                      ++ [st_success nat (lit "All images generated!")]
       /\ existsb is_image evs = false.
Proof.
  assert (H : forall req w, exists e w',
                images_generate _ _ _ service_down req w = (inl e, w')).
  { intros req w. exists quota_exceeded, w. reflexivity. }
  split; [exact H|].
  exact (bulk_run_all_fail unit nat nat service_down H
           [item "PIZZA" ""; item "PASTA" ""] fresh_session).
Defined.

Lemma description_markup_bounded_witness :
  len (lit "Served with fries") <= 200
  /\ description_markup (lit "Served with fries")
     = lit "*" ++ lit "Served with fries" ++ lit "*".
Proof.
  assert (H : len (lit "Served with fries") <= 200) by (cbv; lia).
  split; [exact H|].
  exact (proj1 (proj2 (description_markup_bounded _)) H).
Defined.

Lemma tesseract_first_existing_witness :
  Forall (fun p => Nat.eqb (len p) 50 = false)
         [lit "C:\Program Files\Tesseract-OCR\tesseract.exe"]
  /\ Nat.eqb (len (lit "C:\Program Files (x86)\Tesseract-OCR\tesseract.exe")) 50
     = true
  /\ configure_tesseract (fun p => Nat.eqb (len p) 50) possible_paths
       (lit "tesseract")
     = lit "C:\Program Files (x86)\Tesseract-OCR\tesseract.exe".
Proof.
  assert (H1 : Forall (fun p => Nat.eqb (len p) 50 = false)
                 [lit "C:\Program Files\Tesseract-OCR\tesseract.exe"]).
  { apply Forall_cons; [reflexivity | apply Forall_nil]. }
  assert (H2 : Nat.eqb
                 (len (lit "C:\Program Files (x86)\Tesseract-OCR\tesseract.exe"))
                 50 = true) by reflexivity.
  split; [exact H1|]. split; [exact H2|].
  exact (proj1 (proj2 (tesseract_first_existing
                         (fun p => Nat.eqb (len p) 50) (lit "tesseract")))
           _ _ _ H1 H2).
Defined.

Lemma extract_text_never_raises_witness :
  ocr_down 7 (pg_outside fresh_page) = (inl tesseract_missing, tt)
  /\ fst (extract_text_from_image ocr_down 7 fresh_page) = Return [].
Proof.
  split; [reflexivity|].
  rewrite (proj1 (proj2 (extract_text_never_raises unit nat ocr_down 7
                           fresh_page)) tesseract_missing tt eq_refl).
  reflexivity.
Defined.

Lemma unguarded_calls_of_the_page_witness :
  upload_opens tt (pg_outside fresh_page) = (inr 7, tt)
  /\ Image_load _ _ _ service_truncated 7 tt = (inl truncated, tt)
  /\ main_app_logic service_truncated upload_opens ocr_down no_click true
       ascii_db (Some tt) fresh_page
     = (Raise truncated,
        {| pg_outside := tt;
           pg_shown := pg_shown fresh_page ++
             [pg_columns nat 2;
              pg_subheader nat ([128196%N] ++ lit " Uploaded Menu")];
           pg_sent := pg_sent fresh_page |}).
Proof.
  split; [reflexivity|]. split; [reflexivity|].
  exact (proj1 (proj2 (unguarded_calls_of_the_page unit nat nat unit
                         service_truncated upload_opens ocr_down no_click
                         ascii_db true tt fresh_page))
           7 tt truncated tt eq_refl eq_refl).
Defined.

Lemma no_text_no_request_witness :
  upload_opens tt (pg_outside fresh_page) = (inr 7, tt)
  /\ Image_load _ _ _ service_up 7 tt = (inr tt, tt)
  /\ ocr_reads [] 7 tt = (inr [], tt)
  /\ main_app_logic service_up upload_opens (ocr_reads []) click_bulk true
       ascii_db (Some tt) fresh_page
     = (Return tt,
        {| pg_outside := tt;
           pg_shown := pg_shown fresh_page ++ page_head 7 ++ [no_text_error];
           pg_sent := pg_sent fresh_page |}).
Proof.
  split; [reflexivity|]. split; [reflexivity|]. split; [reflexivity|].
  exact (proj2 (no_text_no_request unit nat nat unit service_up upload_opens
                  (ocr_reads []) click_bulk ascii_db true tt 7 tt tt tt
                  fresh_page eq_refl eq_refl) eq_refl).
Defined.

Lemma no_name_line_warning_witness :
  Image_load _ _ _ service_up 7 tt = (inr tt, tt)
  /\ lit "fresh every day" <> []
  /\ filter (is_name_line ascii_db) (split_nl (lit "fresh every day")) = []
  /\ main_app_logic service_up upload_opens (ocr_reads (lit "fresh every day"))
       click_bulk true ascii_db (Some tt) fresh_page
     = (Return tt,
        {| pg_outside := tt;
           pg_shown := pg_shown fresh_page ++ page_head 7
                       ++ text_head (lit "fresh every day")
                       ++ [no_items_warning];
           pg_sent := pg_sent fresh_page |}).
Proof.
  assert (H1 : lit "fresh every day" <> []) by discriminate.
  assert (H2 : filter (is_name_line ascii_db)
                 (split_nl (lit "fresh every day")) = []) by reflexivity.
  split; [reflexivity|]. split; [exact H1|]. split; [exact H2|].
  exact (no_name_line_warning unit nat nat unit service_up upload_opens
           (ocr_reads (lit "fresh every day")) click_bulk ascii_db true tt 7
           tt tt (lit "fresh every day") tt fresh_page eq_refl eq_refl eq_refl
           H1 H2).
Defined.

Lemma requests_follow_clicks_witness :
  upload_opens tt (pg_outside fresh_page) = (inr 7, tt)
  /\ Image_load _ _ _ service_up 7 tt = (inr tt, tt)
  /\ ocr_reads p5 7 tt = (inr p5, tt)
  /\ all_decodable service_up
  /\ exists reqs,
       pg_sent (snd (main_app_logic service_up upload_opens (ocr_reads p5)
                       click_bulk true ascii_db (Some tt) fresh_page))
       = pg_sent fresh_page ++ reqs
       /\ reqs = map request_of (clicked_rows click_bulk 0
                                   (parse_menu_items ascii_db p5))
                 ++ (if click_bulk (lit "Generate All Images") None
                     then map request_of (parse_menu_items ascii_db p5)
                     else []).
Proof.
  assert (Hd : all_decodable service_up).
  { intros img w. exists w. reflexivity. }
  split; [reflexivity|]. split; [reflexivity|]. split; [reflexivity|].
  split; [exact Hd|].
  destruct (requests_follow_clicks unit nat nat unit service_up upload_opens
              (ocr_reads p5) click_bulk ascii_db tt 7 tt tt p5 tt fresh_page
              eq_refl eq_refl eq_refl) as (reqs & Hs & _ & _ & Hall).
  exists reqs. split; [exact Hs | exact (Hall Hd)].
Defined.

Lemma no_click_no_request_witness :
  (true = false \/ forall label key, no_click label key = false)
  /\ pg_sent (snd (main_app_logic service_up upload_opens (ocr_reads p5)
                     no_click true ascii_db (Some tt) fresh_page))
     = pg_sent fresh_page.
Proof.
  assert (H : true = false \/ forall label key, no_click label key = false).
  { right. reflexivity. }
  split; [exact H|].
  exact (no_click_no_request unit nat nat unit service_up upload_opens
           (ocr_reads p5) no_click ascii_db true tt fresh_page H).
Defined.

Lemma found_header_counts_name_lines_witness :
  upload_opens tt (pg_outside fresh_page) = (inr 7, tt)
  /\ Image_load _ _ _ service_up 7 tt = (inr tt, tt)
  /\ ocr_reads p5 7 tt = (inr p5, tt)
  /\ filter (is_name_line ascii_db) (split_nl p5) <> []
  /\ exists evs,
       pg_shown (snd (main_app_logic service_up upload_opens (ocr_reads p5)
                        no_click true ascii_db (Some tt) fresh_page))
       = pg_shown fresh_page ++ page_head 7 ++ text_head p5
         ++ [found_header
               (List.length (filter (is_name_line ascii_db) (split_nl p5)))]
         ++ evs.
Proof.
  assert (H : filter (is_name_line ascii_db) (split_nl p5) <> []).
  { vm_compute. discriminate. }
  split; [reflexivity|]. split; [reflexivity|]. split; [reflexivity|].
  split; [exact H|].
  exact (found_header_counts_name_lines unit nat nat unit service_up
           upload_opens (ocr_reads p5) no_click ascii_db true tt 7 tt tt p5 tt
           fresh_page eq_refl eq_refl eq_refl H).
Defined.

Lemma bulk_run_page_witness :
  all_decodable service_up
  /\ exists s',
       generate_all service_up true [item "PIZZA" ""; item "PASTA" ""]
         fresh_session = (Return tt, s').
Proof.
  assert (Hd : all_decodable service_up).
  { intros img w. exists w. reflexivity. }
  split; [exact Hd|].
  exact (proj2 (proj2 (bulk_run_page unit nat nat service_up
                         [item "PIZZA" ""; item "PASTA" ""] fresh_session))
           Hd).
Defined.
